(** * Readme_Generator: commit classification and summarisation

    A shallow embedding of the commit pipeline of the repository:

    - [CommitParser.parse] and [CommitCategorizer.categorize]
      (src/readme_generator/parser.py, duplicated in src/readme_generator.py),
    - [CommitSummarizer._rank_candidates] and the bullet-mode
      [CommitSummarizer.summarize] (src/readme_generator.py),
    - [CommitSummarizer._extract_themes] and the narrative-mode
      [CommitSummarizer.summarize] (src/readme_generator/summarizer.py),
    - [categorize_commits] (src/summarizer.py).

    Python [str] values are modelled as [string]; a character is a code
    point below 256, and the character classes of [str] and [re] (white
    space, line boundaries, case, word characters) are those of Python on
    that range.  Python [dict]s and [Counter]s, which iterate in insertion
    order, are association lists with unique keys; Python [set]s are
    [gset]s; integers are [nat] where they count and [Z] where the sign
    matters.  The NLTK package is an optional import of the program: it is a
    value of type [option Nltk], [None] standing for the failed import, and
    its tokenizers and stop-word list are the fields of the record.  Logging
    is left out. *)

From Stdlib Require Import String Ascii List Arith NArith ZArith Lia Bool Permutation Sorted DecimalString.
From stdpp Require Import gmap strings.
Import ListNotations.
Open Scope string_scope.
Open Scope list_scope.

#[local] Arguments String.append !s1 s2 : simpl nomatch.

(** ** Python string primitives *)

Module PyStr.

Definition code (c : ascii) : N := N_of_ascii c.

Definition between (lo hi n : N) : bool := ((lo <=? n) && (n <=? hi))%N.

(** [str.isspace] on one character: TAB..CR, FS..US, SPACE, NEL, NBSP.
    The same class is [\s] of the [re] module and what [strip] and
    [split] without argument remove. *)
Definition isspace (c : ascii) : bool :=
  let n := code c in
  between 9 13 n || between 28 32 n || (n =? 133)%N || (n =? 160)%N.

(** Line boundaries of [str.splitlines]. *)
Definition is_linebreak (c : ascii) : bool :=
  let n := code c in
  between 10 13 n || between 28 30 n || (n =? 133)%N.

(** [str.lower] on one character: A-Z and the upper-case Latin-1 letters
    (all of 192..222 but the multiplication sign 215) move up by 32. *)
Definition lower_char (c : ascii) : ascii :=
  let n := code c in
  if between 65 90 n || (between 192 222 n && negb (n =? 215)%N)
  then ascii_of_N (n + 32) else c.

(** Word characters, [\w] of the [re] module on [str] patterns:
    alphanumeric characters and the underscore. *)
Definition is_word (c : ascii) : bool :=
  let n := code c in
  between 48 57 n || between 65 90 n || (n =? 95)%N || between 97 122 n ||
  (n =? 170)%N || (n =? 178)%N || (n =? 179)%N || (n =? 181)%N ||
  (n =? 185)%N || (n =? 186)%N || between 188 190 n ||
  between 192 214 n || between 216 246 n || between 248 255 n.

(** [str.isdigit] on one character. *)
Definition isdigit_char (c : ascii) : bool :=
  let n := code c in
  between 48 57 n || (n =? 178)%N || (n =? 179)%N || (n =? 185)%N.

Fixpoint lower (s : string) : string :=
  match s with
  | EmptyString => EmptyString
  | String c s' => String (lower_char c) (lower s')
  end.

Fixpoint all_chars (p : ascii -> bool) (s : string) : bool :=
  match s with
  | EmptyString => true
  | String c s' => p c && all_chars p s'
  end.

Fixpoint filter_chars (p : ascii -> bool) (s : string) : string :=
  match s with
  | EmptyString => EmptyString
  | String c s' => if p c then String c (filter_chars p s') else filter_chars p s'
  end.

(** [s.lstrip()], [s.rstrip()], [s.strip()]. *)
Fixpoint lstrip (s : string) : string :=
  match s with
  | EmptyString => EmptyString
  | String c s' => if isspace c then lstrip s' else s
  end.

Fixpoint rstrip (s : string) : string :=
  match s with
  | EmptyString => EmptyString
  | String c s' =>
      match rstrip s' with
      | EmptyString => if isspace c then EmptyString else String c EmptyString
      | r => String c r
      end
  end.

Definition strip (s : string) : string := rstrip (lstrip s).

(** [s.startswith(t)]. *)
Fixpoint startswith (s t : string) {struct t} : bool :=
  match t, s with
  | EmptyString, _ => true
  | String b t', String a s' => Ascii.eqb a b && startswith s' t'
  | String _ _, EmptyString => false
  end.

(** [t in s]: substring test. *)
Fixpoint contains (t s : string) : bool :=
  startswith s t ||
  match s with
  | EmptyString => false
  | String _ s' => contains t s'
  end.

(** [s.split()]: the maximal runs of non-whitespace characters. *)
Fixpoint split (s : string) : list string :=
  match s with
  | EmptyString => []
  | String c s' =>
      if isspace c then split s'
      else match s' with
           | EmptyString => [String c EmptyString]
           | String d _ =>
               if isspace d then String c EmptyString :: split s'
               else match split s' with
                    | [] => [String c EmptyString]
                    | w :: ws => String c w :: ws
                    end
           end
  end.

(** [s.split(sep)] for a one-character separator: never empty. *)
Fixpoint split_on (sep : ascii) (s : string) : list string :=
  match s with
  | EmptyString => [EmptyString]
  | String c s' =>
      if Ascii.eqb c sep then EmptyString :: split_on sep s'
      else match split_on sep s' with
           | [] => [String c EmptyString]
           | w :: ws => String c w :: ws
           end
  end.

(** [s.splitlines()]: CR LF counts as one boundary and a final boundary
    opens no further line. *)
Fixpoint splitlines (s : string) : list string :=
  match s with
  | EmptyString => []
  | String c s' =>
      if is_linebreak c then
        match s' with
        | String d s'' =>
            if Ascii.eqb c "013"%char && Ascii.eqb d "010"%char
            then EmptyString :: splitlines s''
            else EmptyString :: splitlines s'
        | EmptyString => [EmptyString]
        end
      else match splitlines s' with
           | [] => [String c EmptyString]
           | l :: ls => String c l :: ls
           end
  end.

(** [sep.join(l)]. *)
Fixpoint join (sep : string) (l : list string) : string :=
  match l with
  | [] => EmptyString
  | [x] => x
  | x :: l' => x +:+ sep +:+ join sep l'
  end.

(** [str(n)] for a non-negative integer. *)
Definition str_of_nat (n : nat) : string :=
  NilEmpty.string_of_uint (Nat.to_uint n).

Definition nl : string := String "010"%char EmptyString.

(** Truth value of a string and of an optional string. *)
Definition truthy (s : string) : bool := negb (s =? "").

Definition truthy_opt (o : option string) : bool :=
  match o with Some s => truthy s | None => false end.

(** [w in l] for a list of strings. *)
Definition mem (w : string) (l : list string) : bool :=
  existsb (String.eqb w) l.

(** [s[n:]] for a natural [n]. *)
Fixpoint drop (n : nat) (s : string) : string :=
  match n, s with
  | O, _ => s
  | S n', String _ s' => drop n' s'
  | S _, EmptyString => EmptyString
  end.

(** [sorted(l)] on strings: the order of [str] is the lexicographic order
    of the code points, and the sort is stable. *)
Fixpoint insert_sorted (x : string) (l : list string) : list string :=
  match l with
  | [] => [x]
  | y :: l' => if String.leb x y then x :: l else y :: insert_sorted x l'
  end.

Definition sorted (l : list string) : list string :=
  fold_right insert_sorted [] l.

End PyStr.

Import PyStr.

(** ** A backtracking matcher for the [re] patterns of the program

    Only the constructs the program's patterns use.  Repetition is greedy
    and applies to a one-character class, as in every pattern of the
    source; alternatives and optional parts are tried in order and given up
    when the rest of the pattern fails, as Python's matcher does. *)

Module Re.

Inductive regex : Type :=
| Lit (c : ascii)                 (* a literal character *)
| Class (p : ascii -> bool)       (* one character of a class *)
| Seq (r1 r2 : regex)
| Alt (r1 r2 : regex)             (* r1|r2 *)
| Opt (r : regex)                 (* (r)? *)
| Star (p : ascii -> bool)        (* p* for a class p *)
| Plus (p : ascii -> bool)        (* p+ for a class p *)
| Group (name : string) (r : regex) (* (?P<name>r) *)
| WordB.                          (* \b *)

(** The named groups that took part in the match, latest binding first. *)
Definition captures : Type := list (string * string).

Fixpoint group (m : captures) (name : string) : option string :=
  match m with
  | [] => None
  | (n, v) :: m' => if String.eqb n name then Some v else group m' name
  end.

(** The text consumed between the subject suffix [s] and its suffix [s']. *)
Definition span (s s' : string) : string :=
  substring 0 (String.length s - String.length s') s.

Definition word_before (prev : option ascii) : bool :=
  match prev with Some c => is_word c | None => false end.

Definition word_after (s : string) : bool :=
  match s with String c _ => is_word c | EmptyString => false end.

Section Matcher.

Context {A : Type}.

(** Flag [re.I]: literals compare after [lower].  This is the rule of [re]
    on the code points below 256, the alphabet of the model; above them
    [re.I] also lets U+017F stand for s, U+0130 and U+0131 for i and U+212A
    for k. *)
Variable ignorecase : bool.

Definition lit_eq (c d : ascii) : bool :=
  if ignorecase then Ascii.eqb (lower_char d) (lower_char c) else Ascii.eqb d c.

(** Greedy [p*]: the longest run first, then shorter ones. *)
Fixpoint star (p : ascii -> bool) (prev : option ascii) (s : string)
    (k : option ascii -> string -> option A) : option A :=
  match s with
  | String d s' =>
      if p d then
        match star p (Some d) s' k with
        | Some x => Some x
        | None => k prev s
        end
      else k prev s
  | EmptyString => k prev s
  end.

(** [run r prev s m k]: match [r] at the front of [s], [prev] being the
    character before [s] in the subject, then hand over to [k]. *)
Fixpoint run (r : regex) (prev : option ascii) (s : string) (m : captures)
    (k : option ascii -> string -> captures -> option A) : option A :=
  match r with
  | Lit c =>
      match s with
      | String d s' => if lit_eq c d then k (Some d) s' m else None
      | EmptyString => None
      end
  | Class p =>
      match s with
      | String d s' => if p d then k (Some d) s' m else None
      | EmptyString => None
      end
  | Seq r1 r2 => run r1 prev s m (fun prev' s' m' => run r2 prev' s' m' k)
  | Alt r1 r2 =>
      match run r1 prev s m k with
      | Some x => Some x
      | None => run r2 prev s m k
      end
  | Opt r1 =>
      match run r1 prev s m k with
      | Some x => Some x
      | None => k prev s m
      end
  | Star p => star p prev s (fun prev' s' => k prev' s' m)
  | Plus p =>
      match s with
      | String d s' =>
          if p d then star p (Some d) s' (fun prev' s' => k prev' s' m) else None
      | EmptyString => None
      end
  | Group name r1 =>
      run r1 prev s m (fun prev' s' m' => k prev' s' ((name, span s s') :: m'))
  | WordB => if xorb (word_before prev) (word_after s) then k prev s m else None
  end.

End Matcher.

(** [pattern.match(s)]: anchored at the start of [s]. *)
Definition re_match (ignorecase : bool) (r : regex) (s : string) : option captures :=
  run ignorecase r None s [] (fun _ _ m => Some m).

(** [re.search(pattern, s)]: the leftmost start that matches. *)
Fixpoint search_from (ignorecase : bool) (r : regex) (prev : option ascii)
    (s : string) : option captures :=
  match run ignorecase r prev s [] (fun _ _ m => Some m) with
  | Some m => Some m
  | None =>
      match s with
      | String d s' => search_from ignorecase r (Some d) s'
      | EmptyString => None
      end
  end.

Definition re_search (ignorecase : bool) (r : regex) (s : string) : option captures :=
  search_from ignorecase r None s.

(** A literal word (the empty word consumes nothing) and the alternation
    [r1|...|rn] (the empty alternation matches nothing). *)
Fixpoint word (w : string) : regex :=
  match w with
  | EmptyString => Opt (Class (fun _ => false))
  | String c EmptyString => Lit c
  | String c w' => Seq (Lit c) (word w')
  end.

Fixpoint alt (rs : list regex) : regex :=
  match rs with
  | [] => Class (fun _ => false)
  | [r] => r
  | r :: rs' => Alt r (alt rs')
  end.

(** Character classes of the patterns. *)
Definition space_class : ascii -> bool := isspace.                 (* \s *)
Definition dot_class (c : ascii) : bool := negb (Ascii.eqb c "010"). (* . *)
Definition not_rparen (c : ascii) : bool := negb (Ascii.eqb c ")").  (* [^)] *)

(** [re.sub(r"\W+", "", w)]: every run of non-word characters is deleted. *)
Definition sub_nonword (w : string) : string := filter_chars is_word w.

(** [re.sub(r'[^\w]', '', w)]: every non-word character is deleted. *)
Definition sub_nonword_char (w : string) : string := filter_chars is_word w.

End Re.

Import Re.

(** ** src/readme_generator/parser.py (and its copy in src/readme_generator.py) *)

(** [CommitInfo]: [date] is a [datetime], kept as an opaque number. *)
Record CommitInfo : Type := {
  sha : string;
  author : option string;
  date : Z;
  message : string
}.

Module CommitParser.

(** [^(?P<type>feat|fix|docs|style|refactor|perf|test|chore)(\((?P<scope>[^)]+)\))?(!)?:\s*(?P<desc>.+)]
    compiled with [re.I]. *)
Definition type_keywords : list string :=
  ["feat"; "fix"; "docs"; "style"; "refactor"; "perf"; "test"; "chore"].

Definition CONVENTIONAL_RE : regex :=
  Seq (Group "type" (alt (map word type_keywords)))
 (Seq (Opt (Seq (Lit "(") (Seq (Group "scope" (Plus not_rparen)) (Lit ")"))))
 (Seq (Opt (Lit "!"))
 (Seq (Lit ":")
 (Seq (Star space_class)
      (Group "desc" (Plus dot_class)))))).

(** The tuple of the heuristic loop. *)
Definition fallback_types : list string :=
  ["feat"; "fix"; "docs"; "refactor"; "perf"; "test"; "style"].

(** [lowered.startswith(t) or f"{t}:" in lowered or t in lowered.split()]. *)
Definition keyword_found (lowered t : string) : bool :=
  startswith lowered t || contains (t +:+ ":") lowered || mem t (split lowered).

(** [for t in (...): if ...: guessed = t; break]. *)
Fixpoint guess_loop (ts : list string) (lowered guessed : string) : string :=
  match ts with
  | [] => guessed
  | t :: ts' => if keyword_found lowered t then t else guess_loop ts' lowered guessed
  end.

(** [body = "\n".join(lines[1:]).strip() if len(lines) > 1 else None]. *)
Definition body_of (lines : list string) : option string :=
  if Nat.ltb 1 (length lines) then Some (strip (join nl (tl lines))) else None.

(** A group that took part in the match, as a string. *)
Definition group_str (m : captures) (name : string) : string :=
  match group m name with Some v => v | None => "" end.

Definition parse (message : string) : string * option string * string * option string :=
  let lines := splitlines message in
  let first := hd "" lines in
  match re_match true CONVENTIONAL_RE first with
  | Some m =>
      let ctype := lower (group_str m "type") in
      let scope := group m "scope" in
      let desc := strip (group_str m "desc") in
      let body := body_of lines in
      (ctype, scope, desc, body)
  | None =>
      let lowered := lower first in
      let guessed := guess_loop fallback_types lowered "chore" in
      let desc := strip first in
      let body := body_of lines in
      (guessed, None, desc, body)
  end.

End CommitParser.

(** ** Python dictionaries, in insertion order *)

Module Dict.

Definition dict (V : Type) : Type := list (string * V).

Fixpoint get {V : Type} (d : dict V) (k : string) : option V :=
  match d with
  | [] => None
  | (k', v) :: d' => if String.eqb k' k then Some v else get d' k
  end.

(** [d[k] = v]: a present key keeps its place, a new key goes last. *)
Fixpoint set {V : Type} (d : dict V) (k : string) (v : V) : dict V :=
  match d with
  | [] => [(k, v)]
  | (k', v') :: d' =>
      if String.eqb k' k then (k', v) :: d' else (k', v') :: set d' k v
  end.

Definition keys {V : Type} (d : dict V) : list string := map fst d.

Definition values {V : Type} (d : dict V) : list V := map snd d.

(** [d.get(k, dflt)]. *)
Definition get_default {V : Type} (d : dict V) (k : string) (dflt : V) : V :=
  match get d k with Some v => v | None => dflt end.

(** [d[k].append(x)] on a [defaultdict(list)]. *)
Definition append_to {V : Type} (d : dict (list V)) (k : string) (x : V) : dict (list V) :=
  set d k (get_default d k [] ++ [x]).

(** [collections.Counter]: [update] counts the elements of an iterable. *)
Definition Counter : Type := dict nat.

Definition count_one (c : Counter) (w : string) : Counter :=
  set c w (get_default c w 0 + 1).

Definition update (c : Counter) (ws : list string) : Counter :=
  fold_left count_one ws c.

End Dict.

(** ** The optional NLTK import *)

Record Nltk : Type := {
  word_tokenize : string -> list string;
  sent_tokenize : string -> list string;
  stopwords_words_english : list string
}.

(** [for i, x in enumerate(l)]. *)
Definition enumerate {X : Type} (l : list X) : list (nat * X) :=
  combine (seq 0 (length l)) l.

(** [l[:n]] for an integer [n] of either sign. *)
Definition slice_to {X : Type} (l : list X) (n : Z) : list X :=
  if (0 <=? n)%Z then firstn (Z.to_nat n) l
  else firstn (length l - Z.to_nat (- n)) l.

(** [l.sort(key=lambda x: x[1], reverse=True)] and the order of
    [Counter.most_common]: the sort of Python is stable, also with
    [reverse=True]; an element goes in front of the first one whose number
    is not greater than its own. *)
Fixpoint insert_desc (x : string * nat) (l : list (string * nat)) : list (string * nat) :=
  match l with
  | [] => [x]
  | y :: l' => if Nat.ltb (snd x) (snd y) then y :: insert_desc x l' else x :: l
  end.

Definition sort_desc (l : list (string * nat)) : list (string * nat) :=
  fold_right insert_desc [] l.

(** ** src/readme_generator.py: bullet-mode [CommitSummarizer] *)

Module Bullet.

Section WithNltk.

Variable nltk : option Nltk.

(** [set(stopwords.words("english")) if nltk else set()]. *)
Definition stop_words : gset string :=
  match nltk with
  | Some n => list_to_set (stopwords_words_english n)
  | None => ∅
  end.

(** The three list comprehensions that turn a candidate into its tokens. *)
Definition filtered_tokens (cand : string) : list string :=
  let words :=
    match nltk with
    | Some n => map lower (word_tokenize n cand)
    | None => split (lower cand)
    end in
  let words :=
    map sub_nonword
      (List.filter (fun w => truthy w && truthy (sub_nonword w)) words) in
  List.filter (fun w => negb (bool_decide (w ∈ stop_words))) words.

(** First loop: the token lists and the frequency table. *)
Definition tokenize_step (st : Dict.Counter * list (list string)) (cand : string)
    : Dict.Counter * list (list string) :=
  let '(word_freq, tokenized_candidates) := st in
  let filtered := filtered_tokens cand in
  (Dict.update word_freq filtered, tokenized_candidates ++ [filtered]).

(** [sum(word_freq.get(t, 0) for t in tokens)]. *)
Definition score_of (word_freq : Dict.Counter) (tokens : list string) : nat :=
  list_sum (map (fun t => Dict.get_default word_freq t 0) tokens).

(** De-duplication loop: [seen] and [ordered]. *)
Definition dedup_step (st : gset string * list string) (cs : string * nat)
    : gset string * list string :=
  let '(seen, ordered) := st in
  let key := lower (fst cs) in
  if bool_decide (key ∈ seen) then (seen, ordered)
  else ({[key]} ∪ seen, ordered ++ [fst cs]).

Definition _rank_candidates (candidates : list string) : list string :=
  match candidates with
  | [] => []
  | _ =>
      let '(word_freq, tokenized_candidates) :=
        fold_left tokenize_step candidates ([], []) in
      let cand_scores :=
        map (fun ic : nat * string =>
               let tokens := nth (fst ic) tokenized_candidates [] in
               (snd ic, score_of word_freq tokens))
            (enumerate candidates) in
      let cand_scores := sort_desc cand_scores in
      snd (fold_left dedup_step cand_scores (∅, []))
  end.

(** Candidate sentences of one commit: the description, then the first
    sentence of the body. *)
Definition candidates_step (candidates : list string) (c : CommitInfo) : list string :=
  let '(_, _, desc, body) := CommitParser.parse (message c) in
  let candidates := if truthy desc then candidates ++ [desc] else candidates in
  match body with
  | Some b =>
      if truthy b then
        let sents :=
          match nltk with
          | Some n => sent_tokenize n b
          | None => [hd "" (split_on "010" b)]
          end in
        match sents with
        | s0 :: _ => candidates ++ [s0]
        | [] => candidates
        end
      else candidates
  | None => candidates
  end.

(** [groups[ctype].append(c)]. *)
Definition group_step (groups : Dict.dict (list CommitInfo)) (c : CommitInfo)
    : Dict.dict (list CommitInfo) :=
  let '(ctype, _, _, _) := CommitParser.parse (message c) in
  Dict.append_to groups ctype c.

(** The branch on [self.use_gemini] is a placeholder that does nothing. *)
Definition summarize (commits : list CommitInfo) (top_n_per_type : Z)
    : Dict.dict (list string) :=
  let groups := fold_left group_step commits [] in
  fold_left
    (fun summaries (g : string * list CommitInfo) =>
       let candidates := fold_left candidates_step (snd g) [] in
       let ranked := _rank_candidates candidates in
       Dict.set summaries (fst g) (slice_to ranked top_n_per_type))
    groups [].

End WithNltk.

End Bullet.

(** ** src/readme_generator/parser.py: [CommitCategorizer] *)

Module CommitCategorizer.

Definition categorize (commits : list CommitInfo) : Dict.dict (list CommitInfo) :=
  fold_left
    (fun groups commit =>
       let '(commit_type, _, _, _) := CommitParser.parse (message commit) in
       Dict.append_to groups commit_type commit)
    commits [].

(** [types.add(commit_type)] for each commit, then [sorted(list(types))]. *)
Definition get_commit_types (commits : list CommitInfo) : list string :=
  let types :=
    fold_left
      (fun (types : gset string) commit =>
         let '(commit_type, _, _, _) := CommitParser.parse (message commit) in
         {[commit_type]} ∪ types)
      commits ∅ in
  sorted (elements types).

Definition get_commits_by_type (commits : list CommitInfo) (commit_type : string)
    : list CommitInfo :=
  fold_left
    (fun matching_commits commit =>
       let '(parsed_type, _, _, _) := CommitParser.parse (message commit) in
       if String.eqb parsed_type commit_type then matching_commits ++ [commit]
       else matching_commits)
    commits [].

End CommitCategorizer.

(** ** src/summarizer.py: [categorize_commits] *)

Module LegacySummarizer.

(** [\b(w1|...|wn)\b]. *)
Definition word_rule (ws : list string) : regex :=
  Seq WordB (Seq (Group "1" (alt (map word ws))) WordB).

Definition found (r : regex) (lowered : string) : bool :=
  match re_search false r lowered with Some _ => true | None => false end.

Definition category_of (msg : string) : string :=
  let lowered := strip (lower msg) in
  if startswith lowered "feat" then "features"
  else if startswith lowered "fix" then "fixes"
  else if startswith lowered "docs" then "docs"
  else if startswith lowered "refactor" then "refactor"
  else if startswith lowered "test" then "tests"
  else if found (word_rule ["add"; "implement"; "introduce"; "support"; "feature"]) lowered
  then "features"
  else if found (word_rule ["fix"; "bug"; "issue"; "error"; "crash"; "resolve"]) lowered
  then "fixes"
  else if found (word_rule ["doc"; "readme"; "guide"; "tutorial"]) lowered
  then "docs"
  else if found (word_rule ["refactor"; "restructure"; "cleanup"; "format"]) lowered
  then "refactor"
  else if found (word_rule ["test"; "coverage"; "ci"; "pipeline"]) lowered
  then "tests"
  else "other".

Definition categorize_commits (commits : list string) : Dict.dict (list string) :=
  fold_left (fun categories msg => Dict.append_to categories (category_of msg) msg)
    commits [].

(** [^\w+:\s*], the whole match being group 0. *)
Definition prefix_rule : regex :=
  Group "0" (Seq (Plus is_word) (Seq (Lit ":") (Star space_class))).

(** [re.sub(r"^\w+:\s*", "", msg)]: only the start of [msg] can match. *)
Definition sub_prefix (msg : string) : string :=
  match re_match false prefix_rule msg with
  | Some m =>
      match group m "0" with
      | Some whole => drop (String.length whole) msg
      | None => msg
      end
  | None => msg
  end.

Definition format_category_summary (messages : list string) : list string :=
  fold_left
    (fun summaries msg =>
       let clean := strip (sub_prefix msg) in
       summaries ++ ["- " +:+ clean])
    messages [].

(** [list(dict.fromkeys(phrases))]. *)
Definition fromkeys (phrases : list string) : list string :=
  Dict.keys (fold_left (fun d ph => Dict.set d ph tt) phrases []).

(** The optional spaCy pipeline: [NLP] gives, for a text, the texts of the
    noun chunks of the parsed document. *)
Definition _nlp_summarize (NLP : option (string -> list string))
    (messages : list string) (max_phrases : Z) : string :=
  match messages with
  | [] => ""
  | _ =>
      match NLP with
      | Some noun_chunks =>
          let phrases :=
            map strip
              (List.filter (fun chunk => Nat.ltb 1 (length (split chunk)))
                 (noun_chunks (join " " messages))) in
          let unique_phrases := fromkeys phrases in
          join ", " (slice_to unique_phrases max_phrases)
      | None => join "; " (slice_to messages max_phrases)
      end
  end.

(** [x or dflt] on strings. *)
Definition or_else (x dflt : string) : string := if truthy x then x else dflt.

(** [repo_info] holds strings; the result is [None] when
    [repo_info['name']] raises [KeyError]. *)
Definition summarize_commit_history (NLP : option (string -> list string))
    (commits : list string) (repo_info : Dict.dict string) : option (Dict.dict string) :=
  let categories := categorize_commits commits in
  let intro_opt :=
    if truthy_opt (Dict.get repo_info "description")
    then Dict.get repo_info "description"
    else
      match Dict.get repo_info "name" with
      | Some name =>
          Some (name +:+ " is a " +:+ Dict.get_default repo_info "language" "project"
                +:+ " repository.")
      | None => None
      end in
  match intro_opt with
  | None => None
  | Some intro =>
      let intro :=
        intro +:+ nl +:+ nl +:+ "This project includes " +:+ _nlp_summarize NLP commits 5 in
      let features :=
        join nl (format_category_summary (Dict.get_default categories "features" [])) in
      let fixes :=
        join nl (format_category_summary (Dict.get_default categories "fixes" [])) in
      let docs :=
        join nl (format_category_summary (Dict.get_default categories "docs" [])) in
      Some
        [ ("introduction", strip intro);
          ("features", or_else (strip features) "No major features listed.");
          ("fixes", or_else (strip fixes) "No major fixes listed.");
          ("docs", or_else (strip docs) "No documentation changes listed.") ]
  end.

End LegacySummarizer.

(** ** src/readme_generator/summarizer.py: narrative-mode [CommitSummarizer] *)

Module Narrative.

(** [any(term in text for term in terms)]. *)
Definition any_term (terms : list string) (text : string) : bool :=
  existsb (fun term => contains term text) terms.

(** The five sequential tests of [_extract_themes], in source order. *)
Definition theme_table : list (string * list string) :=
  [ ("authentication",
     ["auth"; "login"; "signup"; "user"; "security"; "token"; "oauth"; "permission"]);
    ("api",
     ["api"; "endpoint"; "request"; "response"; "server"; "backend"; "service"; "route"]);
    ("ui",
     ["ui"; "interface"; "component"; "view"; "frontend"; "react"; "vue"; "angular";
      "css"; "html"]);
    ("performance",
     ["cache"; "performance"; "optimization"; "speed"; "memory"; "efficient"; "fast"]);
    ("data",
     ["database"; "db"; "sql"; "query"; "data"; "model"; "schema"; "migration"]) ].

(** One [if any(...): themes[name].append(desc)]. *)
Definition theme_step (desc : string) (themes : Dict.dict (list string))
    (rule : string * list string) : Dict.dict (list string) :=
  let desc_lower := lower desc in
  if any_term (snd rule) desc_lower then Dict.append_to themes (fst rule) desc
  else themes.

Definition _extract_themes (descriptions : list string) : Dict.dict (list string) :=
  fold_left
    (fun themes desc => fold_left (theme_step desc) theme_table themes)
    descriptions [].

(** The rules of [_summarize_features]: guard terms tested on the joined
    text, terms counted per description, heading, text before and after the
    count. *)
Definition feature_rules : list (list string * list string * string * string * string) :=
  [ (["auth"; "login"; "signup"; "user"; "security"; "token"; "oauth"; "permission"],
     ["auth"; "login"; "signup"; "user"; "security"; "token"],
     "Authentication & Security",
     "Enhanced authentication system with ",
     " improvements including user management, security protocols, and access control mechanisms.");
    (["api"; "endpoint"; "request"; "response"; "server"; "backend"; "service"; "route"],
     ["api"; "endpoint"; "request"; "response"; "server"],
     "API & Backend Services",
     "Expanded API capabilities with ",
     " new endpoints and backend services, improving data handling and service integration.");
    (["ui"; "interface"; "component"; "view"; "frontend"; "react"; "vue"; "angular"; "css"; "html"],
     ["ui"; "interface"; "component"; "view"; "frontend"],
     "User Interface & Experience",
     "Introduced ",
     " new UI components and interface improvements, enhancing user experience and visual design.");
    (["cache"; "performance"; "optimization"; "speed"; "memory"; "efficient"; "fast"],
     ["cache"; "performance"; "optimization"; "speed"],
     "Performance & Optimization",
     "Implemented ",
     " performance enhancements including caching mechanisms, memory optimization, and speed improvements.");
    (["database"; "db"; "sql"; "query"; "data"; "model"; "schema"; "migration"],
     ["database"; "db"; "sql"; "query"; "data"; "model"],
     "Data Management",
     "Enhanced data handling with ",
     " database improvements, query optimizations, and data model enhancements.");
    (["support"; "compatibility"; "integration"; "plugin"; "extension"; "platform"],
     ["support"; "compatibility"; "integration"; "plugin"],
     "Platform Integration",
     "Added ",
     " new integrations and platform compatibility features, expanding ecosystem support.");
    (["test"; "testing"; "coverage"; "quality"; "validation"; "check"],
     ["test"; "testing"; "coverage"; "quality"],
     "Testing & Quality Assurance",
     "Strengthened testing framework with ",
     " new testing capabilities and quality assurance measures.") ].

(** The rules of [_summarize_fixes], [_summarize_docs] and
    [_summarize_refactor]: terms, heading, text before and after the count. *)
Definition fix_rules : list (list string * string * string * string) :=
  [ (["crash"; "error"; "exception"; "fail"; "critical"; "fatal"; "hang"],
     "Critical Stability",
     "Resolved ",
     " critical issues including application crashes, fatal errors, and system stability problems that could impact user experience.");
    (["memory"; "leak"; "performance"; "slow"; "timeout"; "optimization"],
     "Memory & Performance",
     "Fixed ",
     " performance-related issues including memory leaks, slow operations, and resource optimization problems.");
    (["ui"; "display"; "render"; "visual"; "layout"; "css"; "style"; "appearance"],
     "User Interface",
     "Corrected ",
     " user interface issues including display problems, rendering bugs, and visual inconsistencies.");
    (["security"; "vulnerability"; "exploit"; "xss"; "csrf"; "injection"; "auth"],
     "Security",
     "Addressed ",
     " security vulnerabilities and authentication issues, strengthening system protection.");
    (["data"; "database"; "query"; "logic"; "calculation"; "validation"; "parsing"],
     "Data & Logic",
     "Resolved ",
     " data handling and business logic issues, improving accuracy and reliability.");
    (["api"; "endpoint"; "integration"; "connection"; "network"; "request"; "response"],
     "API & Integration",
     "Fixed ",
     " API and integration problems, ensuring reliable external service communication.");
    (["compatibility"; "platform"; "browser"; "version"; "support"; "deprecated"],
     "Compatibility",
     "Improved ",
     " compatibility issues across different platforms, browsers, and system versions.") ].

Definition doc_rules : list (list string * string * string * string) :=
  [ (["readme"; "guide"; "tutorial"; "getting started"; "quickstart"; "example"],
     "User Documentation",
     "Enhanced user-facing documentation with ",
     " updates including guides, tutorials, examples, and getting started materials.");
    (["api"; "reference"; "docstring"; "endpoint"; "parameter"; "method"],
     "API Reference",
     "Improved API documentation with ",
     " updates covering endpoints, parameters, methods, and technical references.");
    (["comment"; "docstring"; "inline"; "code"; "function"; "class"],
     "Code Documentation",
     "Strengthened code documentation with ",
     " improvements to inline comments, docstrings, and code explanations.");
    (["install"; "setup"; "configuration"; "deployment"; "build"],
     "Installation & Setup",
     "Updated installation and setup documentation with ",
     " improvements covering configuration, deployment, and build processes.");
    (["troubleshoot"; "faq"; "problem"; "issue"; "help"; "support"],
     "Support Documentation",
     "Enhanced support materials with ",
     " additions to troubleshooting guides, FAQs, and help resources.") ].

Definition refactor_rules : list (list string * string * string * string) :=
  [ (["structure"; "architecture"; "organize"; "modular"; "component"; "class"],
     "Code Architecture",
     "Restructured codebase architecture with ",
     " improvements focusing on modularity, component organization, and structural clarity.");
    (["performance"; "optimize"; "efficient"; "speed"; "memory"; "cache"],
     "Performance Optimization",
     "Optimized code performance through ",
     " refactoring efforts targeting efficiency, speed improvements, and resource utilization.");
    (["clean"; "simplify"; "readable"; "maintainable"; "quality"; "standard"],
     "Code Quality",
     "Enhanced code quality with ",
     " refactoring improvements focusing on readability, maintainability, and coding standards.");
    (["api"; "interface"; "method"; "function"; "signature"; "endpoint"],
     "API Design",
     "Refined API design through ",
     " interface improvements, method restructuring, and endpoint optimization.");
    (["dependency"; "import"; "package"; "module"; "library"; "external"],
     "Dependency Management",
     "Improved dependency management with ",
     " refactoring changes to imports, packages, and external library usage.") ].


(** [[d for d in descriptions if any(term in d.lower() for term in terms)]]. *)
Definition matching (terms : list string) (descriptions : list string) : list string :=
  List.filter (fun d => any_term terms (lower d)) descriptions.

(** One line of a summary; the bullet sign U+2022 is written as its UTF-8
    bytes. *)
Definition bullet_line (name text : string) : string :=
  nl +:+ "• **" +:+ name +:+ "**: " +:+ text.

Definition plural (count : nat) (one many : string) : string :=
  if Nat.eqb count 1 then one else many.

(** The entries of a category dictionary filled by rules that test the
    matching descriptions themselves. *)
Definition rule_entries (rules : list (list string * string * string * string))
    (descriptions : list string) : list (string * string) :=
  flat_map
    (fun r : list string * string * string * string =>
       let '(terms, name, before, after) := r in
       let hits := matching terms descriptions in
       match hits with
       | [] => []
       | _ => [(name, before +:+ str_of_nat (length hits) +:+ after)]
       end)
    rules.

Definition render_entries (entries : list (string * string)) : string :=
  String.concat "" (map (fun e => bullet_line (fst e) (snd e)) entries).

Definition _summarize_features (descriptions key_terms : list string) : string :=
  let count := length descriptions in
  if Nat.eqb count 0 then ""
  else
    let desc_text := lower (join " " descriptions) in
    let themes :=
      flat_map
        (fun r : list string * list string * string * string * string =>
           let '(guard, terms, name, before, after) := r in
           if any_term guard desc_text
           then [(name, before +:+ str_of_nat (length (matching terms descriptions)) +:+ after)]
           else [])
        feature_rules in
    let feature_text := plural count "feature" "features" in
    "The project has seen significant feature development with "
      +:+ str_of_nat count +:+ " new " +:+ feature_text
      +:+ " implemented across multiple areas:"
      +:+ render_entries themes
      +:+ match themes with
          | [] =>
              let key_areas :=
                match key_terms with
                | [] => ["core functionality"; "system capabilities"]
                | _ => firstn 5 key_terms
                end in
              bullet_line "Core Enhancements"
                ("Implemented improvements across " +:+ join ", " key_areas
                 +:+ " with focus on expanding system capabilities and user functionality.")
          | _ => ""
          end.

Definition _summarize_fixes (descriptions key_terms : list string) : string :=
  let count := length descriptions in
  if Nat.eqb count 0 then ""
  else
    let fix_categories := rule_entries fix_rules descriptions in
    let issue_text := plural count "issue" "issues" in
    "Comprehensive bug fixing effort with " +:+ str_of_nat count +:+ " " +:+ issue_text
      +:+ " resolved across multiple categories:"
      +:+ render_entries fix_categories
      +:+ match fix_categories with
          | [] => bullet_line "General Improvements"
                    "Fixed various issues improving overall system reliability, user experience, and code quality."
          | _ => ""
          end
      +:+ nl +:+ nl
      +:+ "These fixes collectively enhance system stability, improve user experience, and ensure robust operation across different use cases and environments.".

Definition _summarize_docs (descriptions key_terms : list string) : string :=
  let count := length descriptions in
  if Nat.eqb count 0 then ""
  else
    let doc_categories := rule_entries doc_rules descriptions in
    let update_text := plural count "update" "updates" in
    "Comprehensive documentation improvements with " +:+ str_of_nat count +:+ " "
      +:+ update_text +:+ " enhancing project accessibility and developer experience:"
      +:+ render_entries doc_categories
      +:+ match doc_categories with
          | [] => bullet_line "General Documentation"
                    "Improved project documentation covering various aspects of the codebase, usage instructions, and technical details."
          | _ => ""
          end
      +:+ nl +:+ nl
      +:+ "These documentation enhancements make the project more accessible to new users, provide better guidance for developers, and improve overall project maintainability.".

Definition _summarize_refactor (descriptions key_terms : list string) : string :=
  let count := length descriptions in
  if Nat.eqb count 0 then ""
  else
    let refactor_categories := rule_entries refactor_rules descriptions in
    let improvement_text := plural count "improvement" "improvements" in
    "Extensive codebase refactoring with " +:+ str_of_nat count +:+ " "
      +:+ improvement_text +:+ " enhancing code quality and maintainability:"
      +:+ render_entries refactor_categories
      +:+ match refactor_categories with
          | [] => bullet_line "General Refactoring"
                    "Improved code organization, maintainability, and architectural design through systematic refactoring efforts."
          | _ => ""
          end
      +:+ nl +:+ nl
      +:+ "These refactoring efforts result in cleaner, more maintainable code that is easier to understand, modify, and extend while improving overall system architecture.".

Definition _summarize_tests (descriptions key_terms : list string) : string :=
  let count := length descriptions in
  if Nat.eqb count 0 then ""
  else "Enhanced testing suite with " +:+ str_of_nat count
         +:+ " additions including new test cases, improved coverage, and testing infrastructure updates.".

Definition _summarize_performance (descriptions key_terms : list string) : string :=
  let count := length descriptions in
  if Nat.eqb count 0 then ""
  else "Optimized performance with " +:+ str_of_nat count
         +:+ " improvements targeting speed, efficiency, and resource utilization.".

Definition _summarize_general (commit_type : string) (descriptions key_terms : list string)
    : string :=
  let count := length descriptions in
  if Nat.eqb count 0 then ""
  else "Made " +:+ str_of_nat count +:+ " " +:+ commit_type
         +:+ " changes improving various aspects of the project.".

(** [count] is an integer; [themes] is only measured. *)
Definition _analyze_impact (commit_type : string) (count : Z)
    (themes : Dict.dict (list string)) : string :=
  if (count =? 0)%Z then ""
  else
    let impact_phrases : list string :=
      if String.eqb commit_type "feat" then
        if (10 <=? count)%Z then ["significant feature expansion"]
        else if (5 <=? count)%Z then ["notable feature development"]
        else ["targeted feature additions"]
      else if String.eqb commit_type "fix" then
        if (15 <=? count)%Z then ["comprehensive bug resolution"]
        else if (8 <=? count)%Z then ["substantial stability improvements"]
        else ["focused issue resolution"]
      else if String.eqb commit_type "refactor" then
        if (8 <=? count)%Z then ["extensive code restructuring"]
        else if (4 <=? count)%Z then ["significant architectural improvements"]
        else ["targeted code optimization"]
      else [] in
    let impact_phrases :=
      if Nat.leb 3 (length themes) then impact_phrases ++ ["multi-area improvements"]
      else if Nat.eqb (length themes) 2
           then impact_phrases ++ ["cross-functional enhancements"]
           else impact_phrases in
    match impact_phrases with
    | [] => "general improvements"
    | _ => join ", " impact_phrases
    end.

(** [s.isdigit()]. *)
Definition isdigit (s : string) : bool := truthy s && all_chars isdigit_char s.

Definition fallback_stop_words : list string :=
  ["the"; "a"; "an"; "and"; "or"; "but"; "in"; "on"; "at"; "to"; "for"; "of"; "with";
   "by"; "is"; "are"; "was"; "were"].

Section WithNltk.

Variable nltk : option Nltk.

Definition stop_words : gset string :=
  match nltk with
  | Some n => list_to_set (stopwords_words_english n)
  | None => list_to_set fallback_stop_words
  end.

(** [Counter(clean_words).most_common(10)], keeping the terms seen more
    than once. *)
Definition _extract_key_terms (texts : list string) : list string :=
  match texts with
  | [] => []
  | _ =>
      let all_text := lower (join " " texts) in
      let words :=
        match nltk with
        | Some n => word_tokenize n all_text
        | None => split all_text
        end in
      let clean_words :=
        flat_map
          (fun word =>
             let clean_word := sub_nonword_char word in
             if Nat.ltb 2 (String.length clean_word)
                && negb (bool_decide (clean_word ∈ stop_words))
                && negb (isdigit clean_word)
             then [clean_word] else [])
          words in
      let word_freq := Dict.update [] clean_words in
      map fst (List.filter (fun wc => Nat.ltb 1 (snd wc)) (firstn 10 (sort_desc word_freq)))
  end.

Definition _create_detailed_summary (commit_type : string)
    (descriptions all_text : list string) : string :=
  match descriptions with
  | [] => ""
  | _ =>
      let key_terms := _extract_key_terms all_text in
      if commit_type =? "feat" then _summarize_features descriptions key_terms
      else if commit_type =? "fix" then _summarize_fixes descriptions key_terms
      else if commit_type =? "docs" then _summarize_docs descriptions key_terms
      else if commit_type =? "refactor" then _summarize_refactor descriptions key_terms
      else if commit_type =? "test" then _summarize_tests descriptions key_terms
      else if commit_type =? "perf" then _summarize_performance descriptions key_terms
      else _summarize_general commit_type descriptions key_terms
  end.

(** The two lists gathered from the commits of one type. *)
Definition gather_step (st : list string * list string) (c : CommitInfo)
    : list string * list string :=
  let '(descriptions, all_text) := st in
  let '(_, scope, desc, body) := CommitParser.parse (message c) in
  let '(descriptions, all_text) :=
    if truthy desc then (descriptions ++ [strip desc], all_text ++ [strip desc])
    else (descriptions, all_text) in
  match body with
  | Some b =>
      if truthy b then
        let sents :=
          match nltk with
          | Some n => sent_tokenize n b
          | None => [hd "" (split_on "010" b)]
          end in
        match sents with
        | s0 :: _ =>
            if Nat.ltb 10 (String.length (strip s0))
            then (descriptions, all_text ++ [strip s0])
            else (descriptions, all_text)
        | [] => (descriptions, all_text)
        end
      else (descriptions, all_text)
  | None => (descriptions, all_text)
  end.

Definition group_step (groups : Dict.dict (list CommitInfo)) (c : CommitInfo)
    : Dict.dict (list CommitInfo) :=
  let '(ctype, _, _, _) := CommitParser.parse (message c) in
  Dict.append_to groups ctype c.

Definition summarize (commits : list CommitInfo) : Dict.dict string :=
  let groups := fold_left group_step commits [] in
  fold_left
    (fun summaries (g : string * list CommitInfo) =>
       match snd g with
       | [] => summaries
       | items =>
           let '(descriptions, all_text) := fold_left gather_step items ([], []) in
           let summary := _create_detailed_summary (fst g) descriptions all_text in
           if truthy summary then Dict.set summaries (fst g) summary else summaries
       end)
    groups [].

End WithNltk.

End Narrative.

(** ** src/readme_generator/fetcher.py (and its copy in src/readme_generator.py) *)

Module GitHubFetcher.

(** What PyGithub hands over for one commit, attributes already read:
    [c.sha], [c.author.login] when [c.author] is set, [c.commit.author]
    when set, with its [name] and [date], and [c.commit.message]. *)
Record GitAuthor : Type := {
  name : option string;
  git_date : option Z
}.

Record ApiCommit : Type := {
  api_sha : string;
  login : option string;
  git_author : option GitAuthor;
  api_message : string
}.

(** The body of the inner [try]: the author name with its fallbacks, the
    date with its fallback to the current time, the message stripped. *)
Definition decode (now : Z) (c : ApiCommit) : CommitInfo :=
  let author_name :=
    match login c with
    | Some l => Some l
    | None =>
        match git_author c with
        | Some a => if truthy_opt (name a) then name a else None
        | None => None
        end
    end in
  let date :=
    match git_author c with
    | Some a =>
        match git_date a with
        | Some d => d
        | None => now
        end
    | None => now
    end in
  let msg := strip (api_message c) in
  {| sha := api_sha c; author := author_name; date := date; message := msg |}.

(** The loop over the commits: an item [None] is a commit whose decoding
    raises, which the inner [except] skips. *)
Fixpoint fetch_loop (now : Z) (commits : list (option ApiCommit)) (max_commits : Z)
    (count : Z) (result : list CommitInfo) : list CommitInfo :=
  match commits with
  | [] => result
  | c :: commits' =>
      if (max_commits <=? count)%Z then result
      else
        match c with
        | Some a => fetch_loop now commits' max_commits (count + 1) (result ++ [decode now a])
        | None => fetch_loop now commits' max_commits count result
        end
  end.

(** [repo] is [None] when [get_repo] or [get_commits] raises: the error
    reaches the caller ([None]). *)
Definition fetch_commits (now : Z) (repo : option (list (option ApiCommit)))
    (max_commits : Z) : option (list CommitInfo) :=
  match repo with
  | Some commits => Some (fetch_loop now commits max_commits 0 [])
  | None => None
  end.

End GitHubFetcher.

(** ** src/readme_generator/generator.py and [ReadmeGenerator] of
    src/readme_generator.py *)

Record RepoMeta : Type := {
  full_name : string;
  description : option string;
  url : string;
  license_name : option string;
  default_branch : string
}.

(** [summaries.get(k)] is set and true. *)
Definition has_summary {V : Type} (nonempty : V -> bool) (summaries : Dict.dict V)
    (k : string) : bool :=
  match Dict.get summaries k with
  | Some v => nonempty v
  | None => false
  end.

(** [[text] if cond else []]. *)
Definition when (cond : bool) (lines : list string) : list string :=
  if cond then lines else [].

(** The lines of the recent activity: the first ten commits, one line each;
    [None] is the [IndexError] of [c.message.splitlines()[0]]. [date_text]
    is [strftime("%Y-%m-%d")]. *)
Fixpoint activity_lines (date_text : Z -> string) (commits : list CommitInfo)
    (lines : list string) : option (list string) :=
  match commits with
  | [] => Some lines
  | c :: commits' =>
      match splitlines (message c) with
      | [] => None
      | short_msg :: _ =>
          let date := date_text (date c) in
          let author :=
            match author c with
            | Some a => if truthy a then a else "unknown"
            | None => "unknown"
            end in
          activity_lines date_text commits'
            (lines ++ ["- `" +:+ substring 0 7 (sha c) +:+ "` " +:+ date +:+ " â€” "
                       +:+ short_msg +:+ " (" +:+ author +:+ ")"])
      end
  end.

Module ReadmeGenerator.

Section FromParagraphs.

Variable include_commit_examples : bool.

(** The text of [datetime.now(...).strftime('%Y-%m-%d %H:%M UTC')] and the
    formatting of a commit date. *)
Variable generated_on : string.

Variable date_text : Z -> string.

Definition activity_phrases : list (string * string) :=
  [ ("feat", "active feature development");
    ("fix", "comprehensive bug fixing");
    ("refactor", "code quality improvements");
    ("docs", "documentation enhancements");
    ("test", "testing infrastructure development");
    ("perf", "performance optimizations") ].

Definition focus_phrases : list (string * string) :=
  [ ("feat", "feature development");
    ("fix", "stability improvements");
    ("refactor", "code quality enhancements");
    ("docs", "documentation improvements");
    ("test", "testing infrastructure");
    ("perf", "performance optimizations") ].

Definition quality_phrases : list (string * string) :=
  [ ("test", "comprehensive testing");
    ("docs", "thorough documentation");
    ("refactor", "code quality focus") ].

(** The phrases of the types that have a summary, in the order of the
    sequence of [if]s. *)
Definition phrases_for (table : list (string * string)) (summaries : Dict.dict string)
    : list string :=
  flat_map (fun e => when (has_summary truthy summaries (fst e)) [snd e]) table.

Definition _build_introduction (meta : RepoMeta) (summaries : Dict.dict string) : string :=
  let parts :=
    match description meta with
    | Some d => when (truthy d) [strip d]
    | None => []
    end in
  let activity_summary := phrases_for activity_phrases summaries in
  let parts :=
    match activity_summary with
    | [] => parts
    | [a0] =>
        parts ++ ["This project shows " +:+ a0
                  +:+ " with a focus on delivering robust and reliable software."]
    | [a0; a1] =>
        parts ++ ["Recent development demonstrates " +:+ a0 +:+ " and " +:+ a1
                  +:+ ", indicating a well-maintained and actively evolving codebase."]
    | _ =>
        let activity_text :=
          join ", " (List.removelast activity_summary) +:+ ", and "
          +:+ List.last activity_summary "" in
        parts ++ ["The project exhibits strong development momentum with " +:+ activity_text
                  +:+ ", showcasing a comprehensive approach to software development and maintenance."]
    end in
  let total_commits := length (List.filter truthy (Dict.values summaries)) in
  let parts :=
    if Nat.leb 4 total_commits then
      parts ++ ["The extensive commit history demonstrates a mature, well-maintained project with consistent development practices."]
    else if Nat.leb 2 total_commits then
      parts ++ ["The project shows active development with regular updates and improvements."]
    else parts in
  match parts with
  | [] => "No description available. Please update the repository description."
  | _ => join " " parts
  end.

(** [set(c.author for c in commits if c.author)]. *)
Definition authors_of (commits : list CommitInfo) : gset string :=
  list_to_set
    (flat_map
       (fun c => match author c with Some a => when (truthy a) [a] | None => [] end)
       commits).

Definition _build_project_analysis (summaries : Dict.dict string)
    (commits : list CommitInfo) : string :=
  let total_commits := length commits in
  let insights :=
    ["**Development Activity**: Analysis of " +:+ str_of_nat total_commits
     +:+ " recent commits reveals:"] in
  let categories := phrases_for focus_phrases summaries in
  let insights :=
    match categories with
    | [] => insights
    | _ => insights ++ ["- Primary focus areas: " +:+ join ", " categories]
    end in
  let insights :=
    match commits with
    | [] => insights
    | _ =>
        let recent_commits := firstn 30 commits in
        if Nat.leb 10 (length recent_commits) then
          insights ++ ["- **Development Pace**: High activity with frequent commits indicating active maintenance"]
        else if Nat.leb 5 (length recent_commits) then
          insights ++ ["- **Development Pace**: Moderate activity with regular updates"]
        else
          insights ++ ["- **Development Pace**: Steady development with periodic updates"]
    end in
  let authors := size (authors_of commits) in
  let insights :=
    if Nat.ltb 10 authors then
      insights ++ ["- **Community**: Active community with " +:+ str_of_nat authors
                   +:+ "+ contributors"]
    else if Nat.ltb 3 authors then
      insights ++ ["- **Team**: Collaborative development with " +:+ str_of_nat authors
                   +:+ " active contributors"]
    else if Nat.ltb 1 authors then
      insights ++ ["- **Collaboration**: Small team development with " +:+ str_of_nat authors
                   +:+ " contributors"]
    else insights in
  let quality_indicators := phrases_for quality_phrases summaries in
  let insights :=
    match quality_indicators with
    | [] => insights
    | _ => insights ++ ["- **Quality Assurance**: Emphasis on " +:+ join ", " quality_indicators]
    end in
  join nl insights.

Definition _format_recent_activity (commits : list CommitInfo) : option string :=
  match activity_lines date_text (firstn 10 commits) [] with
  | Some lines => Some (join nl lines)
  | None => None
  end.

(** The license lines, at the top and at the bottom of the document. *)
Definition license_head (meta : RepoMeta) : list string :=
  match license_name meta with
  | Some l => when (truthy l) ["**License:** " +:+ l +:+ nl]
  | None => []
  end.

Definition license_foot (meta : RepoMeta) : list string :=
  match license_name meta with
  | Some l =>
      when (truthy l)
        ["## License" +:+ nl; "This project is licensed under the " +:+ l +:+ "." +:+ nl]
  | None => []
  end.

Definition description_lines (meta : RepoMeta) : list string :=
  match description meta with
  | Some d => when (truthy d) [d +:+ nl]
  | None => []
  end.

Definition installation_lines : list string :=
  [ "## Installation" +:+ nl;
    "```bash";
    "# Example: replace with repository specific instructions";
    "pip install -r requirements.txt";
    "```";
    "" ].

Definition contribution_lines : list string :=
  [ "## Contribution" +:+ nl;
    "Contributions are welcome. Prefer using Conventional Commits in commit messages." +:+ nl ]
  ++ when include_commit_examples
       [ "### Example commit types";
         "- `feat(scope): add meaningful feature`";
         "- `fix(scope): fix bug`";
         "- `docs: update documentation`";
         "" ].

Definition header_lines (meta : RepoMeta) : list string :=
  ["# " +:+ full_name meta +:+ nl]
  ++ description_lines meta
  ++ ["**Repository:** [" +:+ url meta +:+ "](" +:+ url meta +:+ ")" +:+ nl]
  ++ license_head meta
  ++ [ "---" +:+ nl;
       "_This README was generated automatically from the repository's commit history on "
       +:+ generated_on +:+ "_" +:+ nl ].

(** [generate_markdown] of src/readme_generator/generator.py; [None] is the
    [IndexError] of [_format_recent_activity]. *)
Definition generate_markdown (meta : RepoMeta) (summaries : Dict.dict string)
    (commits : list CommitInfo) : option string :=
  let lines :=
    header_lines meta
    ++ ["## Introduction" +:+ nl; _build_introduction meta summaries +:+ nl]
    ++ ["## Features" +:+ nl] in
  let features := Dict.get_default summaries "feat" "" in
  let lines :=
    if truthy features then lines ++ [features +:+ nl]
    else lines ++ ["No major features found in recent commit history. Please add feature descriptions manually." +:+ nl] in
  let fixes_content :=
    flat_map
      (fun k => when (has_summary truthy summaries k) [Dict.get_default summaries k ""])
      ["fix"; "perf"; "refactor"] in
  let lines :=
    match fixes_content with
    | [] => lines
    | _ => lines ++ ["## Fixes & Improvements" +:+ nl; join " " fixes_content +:+ nl]
    end in
  let docs := Dict.get_default summaries "docs" "" in
  let lines := lines ++ when (truthy docs) ["## Documentation" +:+ nl; docs +:+ nl] in
  let lines := lines ++ installation_lines in
  let lines :=
    lines ++ ["## Project Analysis" +:+ nl; _build_project_analysis summaries commits +:+ nl] in
  let lines := lines ++ ["## Usage" +:+ nl] in
  let lines :=
    if has_summary truthy summaries "feat" then
      lines ++ [ "Based on recent development activity:" +:+ nl;
                 Dict.get_default summaries "feat" "" +:+ nl;
                 "Please refer to the documentation for detailed usage instructions." +:+ nl ]
    else
      lines ++ ["Usage details are not clear from commit messages. Please add usage examples manually." +:+ nl] in
  let lines := lines ++ contribution_lines in
  let lines := lines ++ ["## Recent activity (derived from commits)" +:+ nl] in
  match _format_recent_activity commits with
  | None => None
  | Some recent_activity =>
      let lines := lines ++ [recent_activity +:+ nl] in
      let lines := lines ++ license_foot meta in
      let lines := lines ++ ["---" +:+ nl; "_Generated by readme_generator.py_"] in
      Some (join nl lines)
  end.

End FromParagraphs.

Section FromBullets.

Variable include_commit_examples : bool.

Variable generated_on : string.

Variable date_text : Z -> string.

Definition nonempty_list (l : list string) : bool :=
  match l with [] => false | _ => true end.

(** [_build_intro] of src/readme_generator.py. *)
Definition _build_intro (meta : RepoMeta) (summaries : Dict.dict (list string)) : string :=
  let parts :=
    match description meta with
    | Some d => when (truthy d) [strip d]
    | None => []
    end in
  let feats := Dict.get_default summaries "feat" [] in
  let parts :=
    match feats with
    | [] => parts
    | _ => parts ++ ["Key features include: " +:+ join ", " (firstn 3 feats) +:+ "."]
    end in
  match parts with
  | [] => "No description available. Please update the repository description."
  | _ => join " " parts
  end.

Definition bullets (l : list string) : list string := map (fun x => "- " +:+ x) l.

(** [generate_markdown] of src/readme_generator.py; [None] is the
    [IndexError] of [c.message.splitlines()[0]]. *)
Definition generate_markdown_bullets (meta : RepoMeta) (summaries : Dict.dict (list string))
    (commits : list CommitInfo) : option string :=
  let lines :=
    header_lines generated_on meta
    ++ ["## Introduction" +:+ nl; _build_intro meta summaries +:+ nl]
    ++ ["## Features" +:+ nl] in
  let features := Dict.get_default summaries "feat" [] in
  let lines :=
    match features with
    | [] => lines ++ ["- Feature list is not found from commit messages. Please add features manually or run extended analysis."]
    | _ => lines ++ bullets features
    end in
  let lines := lines ++ [""] in
  let fixes :=
    Dict.get_default summaries "fix" [] ++ Dict.get_default summaries "perf" []
    ++ Dict.get_default summaries "refactor" [] in
  let lines :=
    match fixes with
    | [] => lines
    | _ => lines ++ ["## Fixes & Improvements" +:+ nl] ++ bullets fixes ++ [""]
    end in
  let docs := Dict.get_default summaries "docs" [] in
  let lines := lines ++ ["## Documentation" +:+ nl] in
  let lines :=
    match docs with
    | [] => lines ++ ["- Documentation updated in commit history; check docs/ or README sources in the repository."]
    | _ => lines ++ bullets docs
    end in
  let lines := lines ++ [""] in
  let lines := lines ++ installation_lines in
  let lines :=
    lines ++ [ "## Usage" +:+ nl;
               "Describe how to use the project. Inferred usage points from commits:" ] in
  let usage_points := firstn 5 (Dict.get_default summaries "feat" []) in
  let lines :=
    match usage_points with
    | [] => lines ++ ["- Usage details are not clear from commit messages; please add usage examples."]
    | _ => lines ++ bullets usage_points
    end in
  let lines := lines ++ [""] in
  let lines := lines ++ contribution_lines include_commit_examples in
  let lines := lines ++ ["## Recent activity (derived from commits)" +:+ nl] in
  match activity_lines date_text (firstn 10 commits) lines with
  | None => None
  | Some lines =>
      let lines := lines ++ [""] in
      let lines := lines ++ license_foot meta in
      let lines := lines ++ ["---" +:+ nl; "_Generated by readme_generator.py_"] in
      Some (join nl lines)
  end.

End FromBullets.

End ReadmeGenerator.

(** ** Vocabulary of the specification *)

(** The components of the tuple returned by [CommitParser.parse]. *)
Definition category (r : string * option string * string * option string) : string :=
  fst (fst (fst r)).

Definition scope (r : string * option string * string * option string) : option string :=
  snd (fst (fst r)).

Definition short_description (r : string * option string * string * option string) : string :=
  snd (fst r).

Definition body (r : string * option string * string * option string) : option string :=
  snd r.

Definition commit_type (c : CommitInfo) : string :=
  category (CommitParser.parse (message c)).

(** The elements of [l] whose key is neither in [seen] nor the key of an
    earlier element of [l]: first occurrences, in the order of [l]. *)
Fixpoint first_by (key : string -> string) (seen : list string) (l : list string)
    : list string :=
  match l with
  | [] => []
  | x :: l' =>
      if mem (key x) seen then first_by key seen l'
      else x :: first_by key (key x :: seen) l'
  end.

(** Total number of elements held by the groups of a dictionary. *)
Definition total_size {V : Type} (d : Dict.dict (list V)) : nat :=
  list_sum (map (fun g => length (snd g)) d).

(** Grouping a list by a key function, as the three grouping loops do. *)
Definition group_by {V : Type} (key_of : V -> string) (l : list V)
    (d : Dict.dict (list V)) : Dict.dict (list V) :=
  fold_left (fun g x => Dict.append_to g (key_of x) x) l d.

(** The themes of a table that a description matches, in table order. *)
Definition matched (table : list (string * list string)) (desc : string) : list string :=
  map fst (List.filter (fun rule => Narrative.any_term (snd rule) (lower desc)) table).

Definition themes_of (desc : string) : list string :=
  matched Narrative.theme_table desc.

(** What one description adds to the group of theme [name]. *)
Definition hits (table : list (string * list string)) (name desc : string) : list string :=
  flat_map
    (fun rule : string * list string =>
       if String.eqb (fst rule) name && Narrative.any_term (snd rule) (lower desc)
       then [desc] else [])
    table.

(** The frequency table built over a candidate list, the aggregate score of
    a candidate against it, and the candidates paired with their scores. *)
Definition word_freq_of (nltk : option Nltk) (X : list string) : Dict.Counter :=
  Dict.update [] (flat_map (Bullet.filtered_tokens nltk) X).

Definition score (nltk : option Nltk) (X : list string) (c : string) : nat :=
  Bullet.score_of (word_freq_of nltk X) (Bullet.filtered_tokens nltk c).

Definition scored (nltk : option Nltk) (X : list string) : list (string * nat) :=
  map (fun c => (c, score nltk X c)) X.

(** Scores do not increase along the list. *)
Definition descending (l : list (string * nat)) : Prop :=
  StronglySorted (fun a b => snd b <= snd a) l.

(** The elements of [l] that carry the score [v], in the order of [l]. *)
Definition with_score (v : nat) (l : list (string * nat)) : list (string * nat) :=
  List.filter (fun cs => Nat.eqb (snd cs) v) l.

(** The categories under the names the specification gives them, and the
    keyword that stands for each in the program. *)
Inductive Category : Type :=
| Feature | Fix | Docs | Style | Refactor | Performance | Test | Chore.

Definition keyword_of (c : Category) : string :=
  match c with
  | Feature => "feat"
  | Fix => "fix"
  | Docs => "docs"
  | Style => "style"
  | Refactor => "refactor"
  | Performance => "perf"
  | Test => "test"
  | Chore => "chore"
  end.

(** The body as the specification words it: the lines after the first,
    joined and trimmed, or none when the message has a single line. *)
Definition remaining_lines (lines : list string) : option string :=
  match tl lines with
  | [] => None
  | more => Some (strip (join nl more))
  end.

(** The buckets of [categorize_commits] that stand for the categories. *)
Definition legacy_bucket (c : Category) : string :=
  match c with
  | Feature => "features"
  | Fix => "fixes"
  | Docs => "docs"
  | Refactor => "refactor"
  | Test => "tests"
  | Style | Performance | Chore => "other"
  end.

(** A commit that carries the message [m]. *)
Definition commit_of (m : string) : CommitInfo :=
  {| sha := "0000000"; author := None; date := 0; message := m |}.

(** The priority order of the fallback scan, in the specification's names. *)
Definition priority : list Category :=
  [Feature; Fix; Docs; Refactor; Performance; Test; Style].

(** Keyword [t] shows in the lower-cased line: as a prefix, followed by a
    colon somewhere, or as a whole whitespace-separated word. *)
Definition keyword_in_line (lowered t : string) : Prop :=
  (exists v, lowered = t +:+ v) \/
  (exists u v, lowered = u +:+ t +:+ ":" +:+ v) \/
  In t (split lowered).

(** [cat] is the first keyword of the priority order that shows in the
    line, or chore when none does. *)
Definition first_found (lowered cat : string) : Prop :=
  (exists before after,
     map keyword_of priority = before ++ cat :: after /\
     keyword_in_line lowered cat /\
     forall t, In t before -> ~ keyword_in_line lowered t) \/
  (cat = keyword_of Chore /\
   forall t, In t (map keyword_of priority) -> ~ keyword_in_line lowered t).

(** The conventional first line [<type>[(<scope>)][!]:<rest>]. *)
Definition scope_text (sc : option string) : string :=
  match sc with
  | Some s => "(" +:+ s +:+ ")"
  | None => ""
  end.

Definition bang_text (bang : bool) : string := if bang then "!" else "".

Definition conventional_line (ty : string) (sc : option string) (bang : bool)
    (rest : string) : string :=
  ty +:+ scope_text sc +:+ bang_text bang +:+ ":" +:+ rest.

(** The type is one of the eight keywords up to case, a scope is not empty
    and holds no closing parenthesis, and something follows the colon. *)
Definition header_ok (ty : string) (sc : option string) (rest : string) : Prop :=
  In (lower ty) CommitParser.type_keywords /\
  match sc with
  | Some s => s <> "" /\ all_chars not_rparen s = true
  | None => True
  end /\
  rest <> "".

Definition conventional (first : string) : Prop :=
  exists ty sc bang rest,
    first = conventional_line ty sc bang rest /\ header_ok ty sc rest.

(** The strings a pattern can consume, whatever comes before and after. *)
Inductive lang (ic : bool) : regex -> string -> Prop :=
| lang_lit c d : lit_eq ic c d = true -> lang ic (Lit c) (String d "")
| lang_class p d : p d = true -> lang ic (Class p) (String d "")
| lang_seq r1 r2 u v : lang ic r1 u -> lang ic r2 v -> lang ic (Seq r1 r2) (u +:+ v)
| lang_alt_l r1 r2 u : lang ic r1 u -> lang ic (Alt r1 r2) u
| lang_alt_r r1 r2 u : lang ic r2 u -> lang ic (Alt r1 r2) u
| lang_opt_skip r : lang ic (Opt r) ""
| lang_opt_take r u : lang ic r u -> lang ic (Opt r) u
| lang_star p u : all_chars p u = true -> lang ic (Star p) u
| lang_plus p u : u <> "" -> all_chars p u = true -> lang ic (Plus p) u
| lang_group name r u : lang ic r u -> lang ic (Group name r) u
| lang_wordb : lang ic WordB "".

(** The continuation that ends a match, and the groups a scope binds. *)
Definition final : option ascii -> string -> captures -> option captures :=
  fun _ _ m => Some m.

Definition scope_captures (sc : option string) : captures :=
  match sc with
  | Some s => [("scope", s)]
  | None => []
  end.

(** The character before the position reached after consuming [u]. *)
Fixpoint last_char (prev : option ascii) (u : string) : option ascii :=
  match u with
  | EmptyString => prev
  | String d u' => last_char (Some d) u'
  end.

(** The last character of a string, as a string. *)
Fixpoint last_string (s : string) : string :=
  match s with
  | EmptyString => EmptyString
  | String c EmptyString => s
  | String _ s' => last_string s'
  end.

(** What group [desc] holds when [rest] follows the colon: [rest] without
    its leading whitespace, or its last character when it is all
    whitespace. *)
Definition desc_group (rest : string) : string :=
  match lstrip rest with
  | EmptyString => last_string rest
  | d => d
  end.

(** Some character of [s] is not whitespace. *)
Definition has_text (s : string) : Prop := all_chars isspace s = false.

(** The commits handed over by the API that decode, in order. *)
Definition decodable (items : list (option GitHubFetcher.ApiCommit))
    : list GitHubFetcher.ApiCommit :=
  flat_map (fun o => match o with Some a => [a] | None => [] end) items.

(** The words [_extract_key_terms] looks at: the tokens of the joined,
    lower-cased texts. *)
Definition key_term_words (nltk : option Nltk) (texts : list string) : list string :=
  let all_text := lower (join " " texts) in
  match nltk with
  | Some n => word_tokenize n all_text
  | None => split all_text
  end.

(** [msg] begins with the word [ty] and a colon. *)
Definition word_prefixed (msg ty rest : string) : Prop :=
  msg = ty +:+ ":" +:+ rest /\ ty <> "" /\ all_chars is_word ty = true.

(** The buckets of [categorize_commits]. *)
Definition legacy_buckets : list string :=
  ["features"; "fixes"; "docs"; "refactor"; "tests"; "other"].

(** The summary a group gets in narrative mode, if any. *)
Definition narrative_entry (nltk : option Nltk) (g : string * list CommitInfo)
    : option string :=
  match snd g with
  | [] => None
  | _ =>
      let '(descriptions, all_text) :=
        fold_left (Narrative.gather_step nltk) (snd g) ([], []) in
      let summary :=
        Narrative._create_detailed_summary nltk (fst g) descriptions all_text in
      if truthy summary then Some summary else None
  end.

(** The score as the specification words it: the number of occurrences of
    a token among the tokens of all the candidates, summed over the tokens
    of the candidate; a token that occurs nowhere counts 0. *)
Definition occurrences (t : string) (ws : list string) : nat :=
  length (List.filter (fun w => String.eqb w t) ws).

Definition term_frequency_score (nltk : option Nltk) (X : list string) (c : string) : nat :=
  list_sum
    (map (fun t => occurrences t (flat_map (Bullet.filtered_tokens nltk) X))
       (Bullet.filtered_tokens nltk c)).

(** A Python [str] given by its code points, read in the alphabet of the
    model: [None] as soon as a code point is 256 or more. *)
Fixpoint latin1 (code_points : list N) : option string :=
  match code_points with
  | [] => Some EmptyString
  | n :: rest =>
      if (n <? 256)%N then
        match latin1 rest with
        | Some s => Some (String (ascii_of_N n) s)
        | None => None
        end
      else None
  end.

(** * Properties *)

(** ** The model on the examples of the specification *)

Example splitlines_example :
  splitlines ("a" +:+ nl +:+ nl +:+ "b" +:+ String "013" nl) = ["a"; ""; "b"].
Proof. reflexivity. Qed.

Example split_example : split "  add  the login " = ["add"; "the"; "login"].
Proof. reflexivity. Qed.

Example strip_example : strip "  a b  " = "a b".
Proof. reflexivity. Qed.

Example parse_prefix_example :
  CommitParser.parse "Fixed a crash on startup" =
  ("fix", None, "Fixed a crash on startup", None).
Proof. reflexivity. Qed.

Example parse_bare_prefix_example :
  CommitParser.parse "feat:" = ("feat", None, "feat:", None) /\
  CommitParser.parse "feat: " = ("feat", None, "", None).
Proof. split; reflexivity. Qed.

Example rank_example :
  Bullet._rank_candidates None ["add login"; "add signup"; "ADD LOGIN"] =
  ["add login"; "add signup"].
Proof. reflexivity. Qed.

Example extract_themes_example :
  Narrative._extract_themes ["fix cache"; "add login"; "user api"] =
  [("performance", ["fix cache"]);
   ("authentication", ["add login"; "user api"]);
   ("api", ["user api"])].
Proof. reflexivity. Qed.

Example categorize_commits_example :
  LegacySummarizer.categorize_commits
    ["bug fix for new feature"; "Fix it"; "update"; "a feature."] =
  [("features", ["bug fix for new feature"; "a feature."]);
   ("fixes", ["Fix it"]);
   ("other", ["update"])].
Proof. reflexivity. Qed.

Lemma fold_left_ext {X Y : Type} (f g : X -> Y -> X) (l : list Y) (a : X) :
  (forall a x, f a x = g a x) -> fold_left f l a = fold_left g l a.
Proof.
  intros H. revert a. induction l as [|y l IH]; intros a; simpl.
  - reflexivity.
  - now rewrite H, IH.
Qed.

(** ** Dictionaries *)

Section DictFacts.

Context {V : Type}.

Implicit Types (d : Dict.dict V) (k : string) (v : V).

Lemma get_set d k v k' :
  Dict.get (Dict.set d k v) k' = if String.eqb k k' then Some v else Dict.get d k'.
Proof.
  induction d as [|[k0 v0] d IH]; simpl.
  - reflexivity.
  - destruct (String.eqb k0 k) eqn:E0; simpl.
    + apply String.eqb_eq in E0; subst k0.
      destruct (String.eqb k k'); reflexivity.
    + destruct (String.eqb k0 k') eqn:E1.
      * apply String.eqb_eq in E1; subst k0.
        rewrite String.eqb_sym, E0. reflexivity.
      * apply IH.
Qed.

Lemma mem_In (w : string) (l : list string) : mem w l = true <-> In w l.
Proof.
  unfold mem. rewrite existsb_exists. split.
  - intros [x [Hx E]]. apply String.eqb_eq in E. now subst.
  - intros H. exists w. split; [assumption | apply String.eqb_refl].
Qed.

Lemma mem_false (w : string) (l : list string) : mem w l = false <-> ~ In w l.
Proof.
  rewrite <- mem_In. destruct (mem w l); split; intros; congruence.
Qed.

Lemma keys_set d k v :
  Dict.keys (Dict.set d k v) =
  if mem k (Dict.keys d) then Dict.keys d else Dict.keys d ++ [k].
Proof.
  induction d as [|[k0 v0] d IH]; simpl.
  - reflexivity.
  - unfold mem in *. simpl. rewrite (String.eqb_sym k k0).
    destruct (String.eqb k0 k) eqn:E0; simpl.
    + reflexivity.
    + unfold Dict.keys in *. rewrite IH.
      destruct (existsb (String.eqb k) (map fst d)); reflexivity.
Qed.

Lemma get_None_keys d k : Dict.get d k = None <-> ~ In k (Dict.keys d).
Proof.
  induction d as [|[k0 v0] d IH]; simpl.
  - tauto.
  - destruct (String.eqb k0 k) eqn:E.
    + apply String.eqb_eq in E. split; [discriminate | intros H; exfalso; auto].
    + apply String.eqb_neq in E. rewrite IH. tauto.
Qed.

Lemma keys_set_NoDup d k v : NoDup (Dict.keys d) -> NoDup (Dict.keys (Dict.set d k v)).
Proof.
  intros H. rewrite keys_set. destruct (mem k (Dict.keys d)) eqn:E.
  - assumption.
  - apply mem_false in E. apply NoDup_app. split; [assumption|]. split.
    + intros x Hx Hk. apply list_elem_of_In in Hx, Hk.
      destruct Hk as [<-|[]]. now apply E.
    + apply NoDup_singleton.
Qed.

End DictFacts.

Section GroupFacts.

Context {V : Type}.

Implicit Types (d : Dict.dict (list V)) (k : string) (x : V).

Lemma get_default_append_to d k x k' :
  Dict.get_default (Dict.append_to d k x) k' [] =
  if String.eqb k k' then Dict.get_default d k [] ++ [x] else Dict.get_default d k' [].
Proof.
  unfold Dict.append_to, Dict.get_default at 1. rewrite get_set.
  destruct (String.eqb k k'); reflexivity.
Qed.

Lemma total_size_set d k (v : list V) :
  total_size (Dict.set d k v) + length (Dict.get_default d k []) =
  total_size d + length v.
Proof.
  unfold total_size, Dict.get_default.
  induction d as [|[k0 v0] d IH]; simpl.
  - lia.
  - destruct (String.eqb k0 k); simpl; lia.
Qed.

Lemma total_size_append_to d k x :
  total_size (Dict.append_to d k x) = S (total_size d).
Proof.
  unfold Dict.append_to.
  pose proof (total_size_set d k (Dict.get_default d k [] ++ [x])) as H.
  rewrite length_app in H. simpl in H. lia.
Qed.

Variable key_of : V -> string.

Local Abbreviation group_by := (group_by key_of).

Lemma group_by_total l d : total_size (group_by l d) = total_size d + length l.
Proof.
  unfold group_by. revert d. induction l as [|x l IH]; intros d; simpl.
  - lia.
  - rewrite IH, total_size_append_to. lia.
Qed.

Lemma group_by_get l d k :
  Dict.get_default (group_by l d) k [] =
  Dict.get_default d k [] ++ List.filter (fun x => String.eqb (key_of x) k) l.
Proof.
  unfold group_by. revert d. induction l as [|x l IH]; intros d; simpl.
  - now rewrite app_nil_r.
  - rewrite IH, get_default_append_to.
    destruct (String.eqb (key_of x) k) eqn:E.
    + apply String.eqb_eq in E. subst k. now rewrite <- app_assoc.
    + reflexivity.
Qed.

Lemma group_by_NoDup l d : NoDup (Dict.keys d) -> NoDup (Dict.keys (group_by l d)).
Proof.
  unfold group_by. revert d. induction l as [|x l IH]; intros d H; simpl.
  - assumption.
  - apply IH. unfold Dict.append_to. now apply keys_set_NoDup.
Qed.

Lemma group_by_keys l d k :
  In k (Dict.keys (group_by l d)) <->
  In k (Dict.keys d) \/ exists x, In x l /\ key_of x = k.
Proof.
  unfold group_by. revert d. induction l as [|x l IH]; intros d; simpl.
  - split; [tauto | intros [H|[x [[] _]]]; assumption].
  - rewrite IH. unfold Dict.append_to. rewrite keys_set.
    destruct (mem (key_of x) (Dict.keys d)) eqn:E.
    + apply mem_In in E. split.
      * intros [H|[y [Hy Hk]]]; eauto.
      * intros [H|[y [[->|Hy] Hk]]]; subst; eauto.
    + rewrite in_app_iff. simpl. split.
      * intros [[H|[H|[]]]|[y [Hy Hk]]]; subst; eauto.
      * intros [H|[y [[->|Hy] Hk]]]; subst; eauto.
Qed.

(** The entries of a grouped dictionary never hold an empty list. *)
Lemma group_by_nonempty l d :
  Forall (fun g => snd g <> []) d -> Forall (fun g => snd g <> []) (group_by l d).
Proof.
  unfold group_by. revert d. induction l as [|x l IH]; intros d H; simpl.
  - assumption.
  - apply IH. unfold Dict.append_to.
    generalize (Dict.get_default d (key_of x) [] ++ [x]) (app_cons_not_nil (Dict.get_default d (key_of x) []) [] x).
    intros v Hv. induction H as [|[k0 v0] d Hg H IHd]; simpl.
    + constructor; [simpl; congruence | constructor].
    + destruct (String.eqb k0 (key_of x)); constructor; simpl; auto; congruence.
Qed.

End GroupFacts.

Lemma categorize_group_by (L : list CommitInfo) :
  CommitCategorizer.categorize L = group_by commit_type L [].
Proof.
  unfold CommitCategorizer.categorize, group_by. apply fold_left_ext.
  intros g c. unfold commit_type, category.
  now destruct (CommitParser.parse (message c)) as [[[ct sc] de] bo].
Qed.

Lemma bullet_groups_group_by (L : list CommitInfo) :
  fold_left Bullet.group_step L [] = group_by commit_type L [].
Proof.
  unfold group_by. apply fold_left_ext.
  intros g c. unfold Bullet.group_step, commit_type, category.
  now destruct (CommitParser.parse (message c)) as [[[ct sc] de] bo].
Qed.

Lemma narrative_groups_group_by (L : list CommitInfo) :
  fold_left Narrative.group_step L [] = group_by commit_type L [].
Proof.
  unfold group_by. apply fold_left_ext.
  intros g c. unfold Narrative.group_step, commit_type, category.
  now destruct (CommitParser.parse (message c)) as [[[ct sc] de] bo].
Qed.

(** C6. Grouping completeness: the groups built by
    [CommitCategorizer.categorize], which are also the groups of
    [CommitSummarizer.summarize], hold [len(L)] commits in all; the group of
    a category is the list of the commits classified so, in input order, so
    every commit occurrence lies in the group of its own category and in no
    other; no category has two groups. *)
Theorem grouping_completeness (L : list CommitInfo) :
  let groups := CommitCategorizer.categorize L in
  list_sum (map (fun g => length (snd g)) groups) = length L /\
  NoDup (Dict.keys groups) /\
  (forall k, Dict.get_default groups k [] =
             List.filter (fun c => String.eqb (commit_type c) k) L) /\
  (forall k, In k (Dict.keys groups) <-> exists c, In c L /\ commit_type c = k) /\
  fold_left Bullet.group_step L [] = groups.
Proof.
  cbv zeta. rewrite bullet_groups_group_by, categorize_group_by.
  split; [| split; [| split; [| split]]].
  - apply (group_by_total commit_type L []).
  - apply group_by_NoDup. constructor.
  - intros k. now rewrite group_by_get.
  - intros k. rewrite group_by_keys. simpl. tauto.
  - reflexivity.
Qed.

(** C9. Empty input: ranking no candidate, clustering no description and
    summarising no commit (in either mode) give the empty list or the empty
    mapping. *)
Theorem empty_input_gives_empty_result (nltk : option Nltk) (top_n : Z) :
  Bullet._rank_candidates nltk [] = [] /\
  Narrative._extract_themes [] = [] /\
  Bullet.summarize nltk [] top_n = [] /\
  Narrative.summarize nltk [] = [].
Proof.
  repeat split.
Qed.


(** ** First occurrences *)

Lemma first_by_ext key (s1 s2 l : list string) :
  (forall x, In x s1 <-> In x s2) -> first_by key s1 l = first_by key s2 l.
Proof.
  revert s1 s2. induction l as [|x l IH]; intros s1 s2 H; simpl.
  - reflexivity.
  - assert (E : mem (key x) s1 = mem (key x) s2).
    { destruct (mem (key x) s2) eqn:E2.
      - apply mem_In. apply H. now apply mem_In.
      - apply mem_false. rewrite H. now apply mem_false. }
    rewrite E. destruct (mem (key x) s2).
    + now apply IH.
    + f_equal. apply IH. intros y. simpl. rewrite H. tauto.
Qed.

Lemma first_by_In key seen l x :
  In x (first_by key seen l) -> In x l /\ ~ In (key x) seen.
Proof.
  revert seen. induction l as [|y l IH]; intros seen; simpl.
  - tauto.
  - destruct (mem (key y) seen) eqn:E.
    + intros H. apply IH in H. tauto.
    + apply mem_false in E. intros [->|H].
      * tauto.
      * apply IH in H. simpl in H. tauto.
Qed.

Lemma first_by_NoDup key seen l : NoDup (map key (first_by key seen l)).
Proof.
  revert seen. induction l as [|y l IH]; intros seen; simpl.
  - constructor.
  - destruct (mem (key y) seen) eqn:E.
    + apply IH.
    + simpl. constructor; [| apply IH].
      rewrite list_elem_of_In, in_map_iff. intros [z [Hz Hin]].
      apply first_by_In in Hin. simpl in Hin. rewrite Hz in Hin. tauto.
Qed.

Lemma first_by_sublist key seen l : sublist (first_by key seen l) l.
Proof.
  revert seen. induction l as [|y l IH]; intros seen; simpl.
  - constructor.
  - destruct (mem (key y) seen).
    + apply sublist_cons. apply IH.
    + apply sublist_skip. apply IH.
Qed.

(** Every key of [l] is in [seen] or is the key of a kept element. *)
Lemma first_by_covers key seen l x :
  In x l -> In (key x) seen \/ In (key x) (map key (first_by key seen l)).
Proof.
  revert seen. induction l as [|y l IH]; intros seen; simpl.
  - tauto.
  - intros [->|H].
    + destruct (mem (key x) seen) eqn:E.
      * left. now apply mem_In.
      * right. simpl. now left.
    + destruct (mem (key y) seen) eqn:E.
      * now apply IH.
      * destruct (IH (key y :: seen) H) as [[<-|Hs]|Hk]; simpl; auto.
Qed.

(** Nothing is dropped from a list whose keys are distinct and unseen. *)
Lemma first_by_id key seen l :
  NoDup (map key l) -> (forall x, In x l -> ~ In (key x) seen) ->
  first_by key seen l = l.
Proof.
  revert seen. induction l as [|y l IH]; intros seen Hnd Hs; simpl.
  - reflexivity.
  - simpl in Hnd. apply NoDup_cons in Hnd. destruct Hnd as [Hy Hnd].
    assert (E : mem (key y) seen = false).
    { apply mem_false. apply Hs. now left. }
    rewrite E. f_equal. apply IH; [assumption|].
    intros x Hx [Hk|Hk].
    + apply Hy. apply list_elem_of_In. rewrite Hk. now apply in_map.
    + apply (Hs x); [now right | assumption].
Qed.

(** ** The thematic clusterer *)

Section ThemeFacts.

Implicit Types (themes : Dict.dict (list string)) (table : list (string * list string)).

Lemma theme_inner_get table desc themes name :
  Dict.get_default (fold_left (Narrative.theme_step desc) table themes) name [] =
  Dict.get_default themes name [] ++ hits table name desc.
Proof.
  revert themes. induction table as [|[n terms] table IH]; intros themes; simpl.
  - now rewrite app_nil_r.
  - rewrite IH. unfold Narrative.theme_step. simpl.
    destruct (Narrative.any_term terms (lower desc)).
    + rewrite get_default_append_to. destruct (String.eqb n name) eqn:E; simpl.
      * apply String.eqb_eq in E. subst. now rewrite <- app_assoc.
      * reflexivity.
    + now rewrite andb_false_r.
Qed.

Lemma theme_outer_get table descriptions themes name :
  Dict.get_default
    (fold_left (fun t desc => fold_left (Narrative.theme_step desc) table t)
       descriptions themes) name [] =
  Dict.get_default themes name [] ++ flat_map (hits table name) descriptions.
Proof.
  revert themes. induction descriptions as [|d ds IH]; intros themes; simpl.
  - now rewrite app_nil_r.
  - rewrite IH, theme_inner_get. now rewrite <- app_assoc.
Qed.

Lemma theme_inner_keys table desc themes :
  Dict.keys (fold_left (Narrative.theme_step desc) table themes) =
  Dict.keys themes ++ first_by id (Dict.keys themes) (matched table desc).
Proof.
  unfold matched.
  revert themes. induction table as [|[n terms] table IH]; intros themes; simpl.
  - now rewrite app_nil_r.
  - rewrite IH. unfold Narrative.theme_step. simpl.
    destruct (Narrative.any_term terms (lower desc)); simpl; [| reflexivity].
    unfold Dict.append_to, id at 2. rewrite keys_set.
    destruct (mem n (Dict.keys themes)) eqn:E; [reflexivity|].
    rewrite <- app_assoc. simpl. do 2 f_equal.
    apply first_by_ext. intros x. rewrite in_app_iff. simpl. tauto.
Qed.

Lemma first_by_app key seen (a b : list string) :
  first_by key seen (a ++ b) =
  first_by key seen a ++ first_by key (seen ++ map key (first_by key seen a)) b.
Proof.
  revert seen. induction a as [|x a IH]; intros seen; simpl.
  - now rewrite app_nil_r.
  - destruct (mem (key x) seen) eqn:E.
    + apply IH.
    + simpl. f_equal. rewrite IH. f_equal.
      apply first_by_ext. intros y. simpl. rewrite !in_app_iff. simpl. tauto.
Qed.

Lemma theme_outer_keys table descriptions themes :
  Dict.keys
    (fold_left (fun t desc => fold_left (Narrative.theme_step desc) table t)
       descriptions themes) =
  Dict.keys themes ++ first_by id (Dict.keys themes) (flat_map (matched table) descriptions).
Proof.
  revert themes. induction descriptions as [|d ds IH]; intros themes; simpl.
  - now rewrite app_nil_r.
  - rewrite IH, theme_inner_keys, first_by_app, <- app_assoc. do 2 f_equal.
    now rewrite map_id.
Qed.

End ThemeFacts.

Lemma flat_map_filter {X : Type} (p : X -> bool) (l : list X) :
  flat_map (fun x => if p x then [x] else []) l = List.filter p l.
Proof.
  induction l as [|x l IH]; simpl; [reflexivity|].
  rewrite IH. now destruct (p x).
Qed.

Lemma hits_theme_table name terms desc :
  In (name, terms) Narrative.theme_table ->
  hits Narrative.theme_table name desc =
  if Narrative.any_term terms (lower desc) then [desc] else [].
Proof.
  unfold Narrative.theme_table, hits. simpl.
  intros H.
  repeat (destruct H as [H|H];
          [injection H as <- <-; simpl; rewrite ?app_nil_r; reflexivity|]).
  destruct H.
Qed.

(** C3 fails as stated: the themes of ["fix cache"; "add login"] come
    out as performance, authentication, which is not the order of the theme
    table. *)
Lemma themes_not_in_declaration_order :
  ~ (forall descriptions : list string,
       sublist (Dict.keys (Narrative._extract_themes descriptions))
               (map fst Narrative.theme_table)).
Proof.
  intros H. specialize (H ["fix cache"; "add login"]).
  vm_compute in H.
  repeat match goal with
         | Hs : sublist _ _ |- _ => inversion_clear Hs
         end.
Qed.

(** C3, amended. The mapping returned by [_extract_themes] lists its themes
    in the order in which each theme was first matched: descriptions are
    scanned in input order and, for one description, the themes it matches
    in the order of the theme table; a theme is listed once and only when
    some description matches it.  The group of a theme is the list of the
    descriptions that match one of its keywords, in input order, so a
    description lies in the group of every theme it matches (several, or
    none). *)
Theorem themes_first_match_order (descriptions : list string) :
  let themes := Narrative._extract_themes descriptions in
  Dict.keys themes = first_by id [] (flat_map themes_of descriptions) /\
  NoDup (Dict.keys themes) /\
  (forall name, In name (Dict.keys themes) <->
     exists d, In d descriptions /\ In name (themes_of d)) /\
  (forall name terms, In (name, terms) Narrative.theme_table ->
     Dict.get_default themes name [] =
     List.filter (fun d => Narrative.any_term terms (lower d)) descriptions).
Proof.
  cbv zeta. unfold Narrative._extract_themes.
  assert (K : Dict.keys
                (fold_left
                   (fun t desc => fold_left (Narrative.theme_step desc) Narrative.theme_table t)
                   descriptions []) = first_by id [] (flat_map themes_of descriptions)).
  { rewrite theme_outer_keys. reflexivity. }
  split; [exact K|]. rewrite K. split; [| split].
  - rewrite <- (map_id (first_by id [] _)). apply first_by_NoDup.
  - intros name. split.
    + intros H. apply first_by_In in H. destruct H as [H _].
      apply in_flat_map in H. exact H.
    + intros H. apply in_flat_map in H.
      destruct (first_by_covers id [] _ name H) as [[]|H'].
      now rewrite map_id in H'.
  - intros name terms H. rewrite theme_outer_get. simpl.
    rewrite <- flat_map_filter. apply flat_map_ext. intros d.
    now apply hits_theme_table.
Qed.

Lemma themes_first_match_order_witness :
  Dict.get_default
    (Narrative._extract_themes ["fix cache"; "add login"; "speed up login"])
    "performance" [] =
  ["fix cache"; "speed up login"].
Proof.
  destruct (themes_first_match_order ["fix cache"; "add login"; "speed up login"])
    as (_ & _ & _ & H).
  rewrite (H "performance"
             ["cache"; "performance"; "optimization"; "speed"; "memory"; "efficient"; "fast"]).
  - reflexivity.
  - simpl. tauto.
Defined.

(** ** The stable descending sort *)

Lemma insert_desc_perm x l : Permutation (insert_desc x l) (x :: l).
Proof.
  induction l as [|y l IH]; simpl.
  - reflexivity.
  - destruct (Nat.ltb (snd x) (snd y)).
    + rewrite IH. apply perm_swap.
    + reflexivity.
Qed.

Lemma sort_desc_perm l : Permutation (sort_desc l) l.
Proof.
  induction l as [|x l IH]; simpl.
  - reflexivity.
  - rewrite insert_desc_perm. now constructor.
Qed.

Lemma insert_desc_descending x l : descending l -> descending (insert_desc x l).
Proof.
  unfold descending. induction 1 as [|y l Hl IH Hy]; simpl.
  - repeat constructor.
  - destruct (Nat.ltb (snd x) (snd y)) eqn:E.
    + apply Nat.ltb_lt in E. constructor; [assumption|].
      eapply Permutation_Forall; [symmetry; apply insert_desc_perm|].
      constructor; [lia | assumption].
    + apply Nat.ltb_ge in E. constructor; [now constructor|].
      constructor; [assumption|].
      eapply Forall_impl; [exact Hy|]. simpl. intros; lia.
Qed.

Lemma sort_desc_descending l : descending (sort_desc l).
Proof.
  induction l as [|x l IH]; simpl.
  - constructor.
  - now apply insert_desc_descending.
Qed.

Lemma with_score_insert v x l :
  with_score v (insert_desc x l) = with_score v (x :: l).
Proof.
  unfold with_score. induction l as [|y l IH]; simpl.
  - reflexivity.
  - destruct (Nat.ltb (snd x) (snd y)) eqn:E; [| reflexivity].
    apply Nat.ltb_lt in E. simpl. rewrite IH. simpl.
    destruct (Nat.eqb (snd x) v) eqn:Ex, (Nat.eqb (snd y) v) eqn:Ey; try reflexivity.
    apply Nat.eqb_eq in Ex, Ey. lia.
Qed.

Lemma sort_desc_stable v l : with_score v (sort_desc l) = with_score v l.
Proof.
  induction l as [|x l IH]; simpl.
  - reflexivity.
  - rewrite with_score_insert. unfold with_score in *. simpl. now rewrite IH.
Qed.

(** A list already in descending order is left as it is. *)
Lemma sort_desc_id l : descending l -> sort_desc l = l.
Proof.
  unfold descending. induction 1 as [|x l Hl IH Hx]; simpl.
  - reflexivity.
  - rewrite IH. destruct Hx as [|y l Hy Hx]; simpl.
    + reflexivity.
    + replace (Nat.ltb (snd x) (snd y)) with false; [reflexivity|].
      symmetry. apply Nat.ltb_ge. exact Hy.
Qed.

(** ** The extractive ranker *)

Section RankFacts.

Variable nltk : option Nltk.

Local Abbreviation toks := (Bullet.filtered_tokens nltk).

Lemma update_app (c : Dict.Counter) (a b : list string) :
  Dict.update c (a ++ b) = Dict.update (Dict.update c a) b.
Proof. unfold Dict.update. apply fold_left_app. Qed.

Lemma tokenize_fold (X : list string) (wf : Dict.Counter) (tc : list (list string)) :
  fold_left (Bullet.tokenize_step nltk) X (wf, tc) =
  (Dict.update wf (flat_map toks X), tc ++ map toks X).
Proof.
  revert wf tc. induction X as [|c X IH]; intros wf tc; simpl.
  - now rewrite app_nil_r.
  - rewrite IH, update_app, <- app_assoc. reflexivity.
Qed.

Lemma enumerate_scores (g : list string -> nat) (P : list (list string)) (X : list string) :
  map (fun ic : nat * string => (snd ic, g (nth (fst ic) (P ++ map toks X) [])))
      (combine (seq (length P) (length X)) X) =
  map (fun c => (c, g (toks c))) X.
Proof.
  revert P. induction X as [|c X IH]; intros P; simpl.
  - reflexivity.
  - f_equal.
    + now rewrite nth_middle.
    + specialize (IH (P ++ [toks c])).
      rewrite length_app, Nat.add_1_r, <- app_assoc in IH. exact IH.
Qed.

Lemma dedup_fold (l : list (string * nat)) (seen : gset string) (ordered : list string) :
  snd (fold_left Bullet.dedup_step l (seen, ordered)) =
  ordered ++ first_by lower (elements seen) (map fst l).
Proof.
  revert seen ordered. induction l as [|[c n] l IH]; intros seen ordered; simpl.
  - now rewrite app_nil_r.
  - destruct (bool_decide (lower c ∈ seen)) eqn:E.
    + apply bool_decide_eq_true in E.
      replace (mem (lower c) (elements seen)) with true.
      * apply IH.
      * symmetry. apply mem_In, list_elem_of_In, elem_of_elements, E.
    + apply bool_decide_eq_false in E.
      replace (mem (lower c) (elements seen)) with false.
      * rewrite IH, <- app_assoc. simpl. do 2 f_equal.
        apply first_by_ext. intros x. simpl.
        rewrite <- !list_elem_of_In, !elem_of_elements.
        rewrite elem_of_union, elem_of_singleton.
        split; (intros [->|H]; [left | right]); auto.
      * symmetry. apply mem_false. rewrite <- list_elem_of_In, elem_of_elements.
        exact E.
Qed.

(** The ranker in closed form: score, stable sort, first occurrences. *)
Lemma rank_closed_form (X : list string) :
  Bullet._rank_candidates nltk X =
  first_by lower [] (map fst (sort_desc (scored nltk X))).
Proof.
  destruct X as [|c0 X0]; [reflexivity|].
  set (X := c0 :: X0). unfold Bullet._rank_candidates. fold X.
  rewrite tokenize_fold. simpl app.
  unfold enumerate.
  rewrite (enumerate_scores (Bullet.score_of _) [] X).
  rewrite dedup_fold. rewrite elements_empty. reflexivity.
Qed.

Lemma get_default_count_one (c : Dict.Counter) (w t : string) :
  Dict.get_default (Dict.count_one c w) t 0 =
  Dict.get_default c t 0 + (if String.eqb w t then 1 else 0).
Proof.
  unfold Dict.count_one, Dict.get_default at 1. rewrite get_set.
  destruct (String.eqb w t) eqn:E.
  - apply String.eqb_eq in E. now subst.
  - fold (Dict.get_default c t 0). lia.
Qed.

Lemma get_default_update (c : Dict.Counter) (ws : list string) (t : string) :
  Dict.get_default (Dict.update c ws) t 0 =
  Dict.get_default c t 0 + length (List.filter (fun w => String.eqb w t) ws).
Proof.
  unfold Dict.update. revert c. induction ws as [|w ws IH]; intros c; simpl.
  - lia.
  - rewrite IH, get_default_count_one. destruct (String.eqb w t); simpl; lia.
Qed.

End RankFacts.

Lemma filter_length_perm {X : Type} (p : X -> bool) (l l' : list X) :
  Permutation l l' -> length (List.filter p l) = length (List.filter p l').
Proof.
  induction 1; simpl; try congruence.
  - destruct (p x); simpl; congruence.
  - destruct (p x), (p y); reflexivity.
Qed.

(** The score against a corpus does not depend on the order of the corpus. *)
Lemma score_perm nltk (X Y : list string) (c : string) :
  Permutation X Y -> score nltk X c = score nltk Y c.
Proof.
  intros HP. unfold score, Bullet.score_of, word_freq_of. f_equal.
  apply map_ext. intros t. rewrite !get_default_update. f_equal.
  apply filter_length_perm. now apply Permutation_flat_map.
Qed.

Lemma scored_fst nltk X : map fst (scored nltk X) = X.
Proof.
  unfold scored. rewrite map_map. simpl. apply map_id.
Qed.

Lemma sorted_candidates_perm nltk X :
  Permutation (map fst (sort_desc (scored nltk X))) X.
Proof.
  rewrite <- (scored_fst nltk X) at 2. apply Permutation_map, sort_desc_perm.
Qed.

(** Ranking a list without case-insensitive duplicates only sorts it. *)
Lemma rank_nodup nltk X :
  NoDup (map lower X) ->
  Bullet._rank_candidates nltk X = map fst (sort_desc (scored nltk X)).
Proof.
  intros H. rewrite rank_closed_form. apply first_by_id.
  - now rewrite (sorted_candidates_perm nltk X).
  - intros x _ [].
Qed.

(** Scoring the sorted candidates again gives the sorted scored list back. *)
Lemma scored_sorted nltk X :
  scored nltk (map fst (sort_desc (scored nltk X))) = sort_desc (scored nltk X).
Proof.
  assert (F : Forall (fun cs => snd cs = score nltk X (fst cs)) (sort_desc (scored nltk X))).
  { eapply Permutation_Forall; [symmetry; apply sort_desc_perm|].
    unfold scored. apply Forall_forall. intros cs Hcs.
    apply list_elem_of_In, in_map_iff in Hcs. destruct Hcs as [c [<- _]]. reflexivity. }
  unfold scored at 1. rewrite map_map.
  erewrite map_ext;
    [| intros cs; rewrite (score_perm nltk _ X (fst cs) (sorted_candidates_perm nltk X));
       reflexivity].
  induction F as [|[c n] l Hc F IH]; simpl.
  - reflexivity.
  - simpl in Hc. subst n. now rewrite IH.
Qed.

(** The ranker on concrete candidates whose tokens are known. *)
Ltac rank_by_tokens :=
  rewrite rank_closed_form;
  unfold scored, score, word_freq_of; cbn [map flat_map];
  repeat match goal with
         | H : Bullet.filtered_tokens _ _ = _ |- _ => rewrite !H; clear H
         end;
  reflexivity.

Lemma score_is_term_frequency (nltk : option Nltk) (X : list string) (c : string) :
  score nltk X c = term_frequency_score nltk X c.
Proof.
  unfold score, Bullet.score_of, term_frequency_score, occurrences, word_freq_of.
  f_equal. apply map_ext. intros t. now rewrite get_default_update.
Qed.

Lemma scored_by_term_frequency (nltk : option Nltk) (X : list string) :
  scored nltk X = map (fun c => (c, term_frequency_score nltk X c)) X.
Proof.
  unfold scored. apply map_ext. intros c. now rewrite score_is_term_frequency.
Qed.

(** C5. [_rank_candidates] sorts the candidates by their aggregate
    term-frequency score, highest first, candidates of equal score staying
    in input order, and then keeps of each group of candidates equal up to
    case the first one only.  The score the program computes is the sum,
    over the tokens of the candidate, of the number of occurrences of the
    token among the tokens of all candidates; the sorted list is the
    permutation of the scored candidates that is descending and keeps the
    input order within each score; the result is the list of the first
    occurrences up to case along the sorted list, so no two of its entries
    are equal up to case and every candidate is represented up to case.
    With tokens "add", "login", "signup" counted 3, 2, 1 the candidates
    "add login", "add signup", "ADD LOGIN" are ranked "add login",
    "add signup"; given as "add signup", "add login", "ADD LOGIN" they are
    ranked the same way, the higher score going first. *)
Theorem rank_sorted_stable_deduplicated (nltk : option Nltk) (X : list string) :
  let by_score := map (fun c => (c, term_frequency_score nltk X c)) X in
  let sorted := sort_desc by_score in
  let ranked := Bullet._rank_candidates nltk X in
  (forall t, Dict.get_default (word_freq_of nltk X) t 0 =
             occurrences t (flat_map (Bullet.filtered_tokens nltk) X)) /\
  scored nltk X = by_score /\
  Permutation sorted by_score /\
  descending sorted /\
  (forall v, with_score v sorted = with_score v by_score) /\
  ranked = first_by lower [] (map fst sorted) /\
  sublist ranked (map fst sorted) /\
  NoDup (map lower ranked) /\
  (forall c, In c X -> In (lower c) (map lower ranked)) /\
  (Bullet.filtered_tokens nltk "add login" = ["add"; "login"] ->
   Bullet.filtered_tokens nltk "add signup" = ["add"; "signup"] ->
   Bullet.filtered_tokens nltk "ADD LOGIN" = ["add"; "login"] ->
   Bullet._rank_candidates nltk ["add login"; "add signup"; "ADD LOGIN"] =
   ["add login"; "add signup"] /\
   Bullet._rank_candidates nltk ["add signup"; "add login"; "ADD LOGIN"] =
   ["add login"; "add signup"]).
Proof.
  cbv zeta. rewrite rank_closed_form, <- scored_by_term_frequency.
  split; [intros t; unfold word_freq_of, occurrences; now rewrite get_default_update|].
  split; [reflexivity|].
  split; [apply sort_desc_perm|].
  split; [apply sort_desc_descending|].
  split; [intros v; apply sort_desc_stable|].
  split; [reflexivity|].
  split; [apply first_by_sublist|].
  split; [apply first_by_NoDup|].
  split.
  - intros c Hc.
    assert (Hs : In c (map fst (sort_desc (scored nltk X)))).
    { eapply Permutation_in; [symmetry; apply sorted_candidates_perm | exact Hc]. }
    destruct (first_by_covers lower [] _ c Hs) as [[]|H]. exact H.
  - intros H1 H2 H3. split; rank_by_tokens.
Qed.

Lemma rank_sorted_stable_deduplicated_witness :
  Bullet._rank_candidates None ["add login"; "add signup"; "ADD LOGIN"] =
  ["add login"; "add signup"] /\
  Bullet._rank_candidates None ["add signup"; "add login"; "ADD LOGIN"] =
  ["add login"; "add signup"].
Proof.
  destruct (rank_sorted_stable_deduplicated None ["add signup"; "add login"; "ADD LOGIN"])
    as (_ & _ & _ & _ & _ & _ & _ & _ & _ & H).
  apply H; reflexivity.
Defined.

(** Ranking is not idempotent whatever the tokenizer: once the repeated
    "login" is dropped, its token counts 1 and no longer 2. *)
Lemma rank_twice_reorders (nltk : option Nltk) :
  Bullet.filtered_tokens nltk "login" = ["login"] ->
  Bullet.filtered_tokens nltk "cache api" = ["cache"; "api"] ->
  Bullet._rank_candidates nltk ["login"; "login"; "cache api"] = ["login"; "cache api"] /\
  Bullet._rank_candidates nltk ["login"; "cache api"] = ["cache api"; "login"].
Proof.
  intros H1 H2. split.
  - rank_by_tokens.
  - rank_by_tokens.
Qed.

(** C1 fails as stated: ranking ["login"; "login"; "cache api"] gives
    ["login"; "cache api"], and ranking that gives ["cache api"; "login"]. *)
Lemma rank_not_idempotent :
  ~ (forall X : list string,
       Bullet._rank_candidates None (Bullet._rank_candidates None X) =
       Bullet._rank_candidates None X).
Proof.
  intros H. specialize (H ["login"; "login"; "cache api"]).
  vm_compute in H. discriminate H.
Qed.

(** C1, amended. Ranking a ranked list gives the same entries again,
    possibly in another order, since the frequency table is rebuilt over the
    de-duplicated list; when no two candidates of [X] are equal up to case,
    [rank(rank(X)) == rank(X)]. *)
Theorem rank_idempotent_without_duplicates (nltk : option Nltk) (X : list string) :
  Permutation (Bullet._rank_candidates nltk (Bullet._rank_candidates nltk X))
              (Bullet._rank_candidates nltk X) /\
  (NoDup (map lower X) ->
   Bullet._rank_candidates nltk (Bullet._rank_candidates nltk X) =
   Bullet._rank_candidates nltk X).
Proof.
  split.
  - set (Y := Bullet._rank_candidates nltk X).
    assert (HY : NoDup (map lower Y)).
    { unfold Y. rewrite rank_closed_form. apply first_by_NoDup. }
    rewrite (rank_nodup nltk Y HY). apply sorted_candidates_perm.
  - intros H. rewrite (rank_nodup nltk X H).
    assert (HS : NoDup (map lower (map fst (sort_desc (scored nltk X))))).
    { now rewrite (sorted_candidates_perm nltk X). }
    rewrite (rank_nodup nltk _ HS), scored_sorted.
    now rewrite (sort_desc_id _ (sort_desc_descending _)).
Qed.

Lemma rank_idempotent_without_duplicates_witness :
  NoDup (map lower ["add login"; "cache api"; "Login"]) /\
  Bullet._rank_candidates None
    (Bullet._rank_candidates None ["add login"; "cache api"; "Login"]) =
  Bullet._rank_candidates None ["add login"; "cache api"; "Login"].
Proof.
  assert (H : NoDup (map lower ["add login"; "cache api"; "Login"])).
  { refine (bool_decide_unpack _ _). vm_compute. exact I. }
  split; [exact H|].
  apply (proj2 (rank_idempotent_without_duplicates None _) H).
Defined.

(** ** Strings *)

Lemma append_nil_r (s : string) : s +:+ "" = s.
Proof. induction s as [|c s IH]; simpl; [reflexivity | now rewrite IH]. Qed.

Lemma append_assoc (a b c : string) : (a +:+ b) +:+ c = a +:+ b +:+ c.
Proof. induction a as [|x a IH]; simpl; [reflexivity | now rewrite IH]. Qed.

Lemma length_append (a b : string) :
  String.length (a +:+ b) = String.length a + String.length b.
Proof. induction a as [|x a IH]; simpl; [reflexivity | now rewrite IH]. Qed.

Lemma lower_append (a b : string) : lower (a +:+ b) = lower a +:+ lower b.
Proof. induction a as [|x a IH]; simpl; [reflexivity | now rewrite IH]. Qed.

Lemma lower_length (a : string) : String.length (lower a) = String.length a.
Proof. induction a as [|x a IH]; simpl; [reflexivity | now rewrite IH]. Qed.

Lemma all_chars_append p (a b : string) :
  all_chars p (a +:+ b) = all_chars p a && all_chars p b.
Proof.
  induction a as [|x a IH]; simpl; [reflexivity|].
  now rewrite IH, andb_assoc.
Qed.

Lemma substring_append_l (u s : string) :
  substring 0 (String.length u) (u +:+ s) = u.
Proof. induction u as [|c u IH]; simpl; [now destruct s | now rewrite IH]. Qed.

Lemma span_append (u s : string) : span (u +:+ s) s = u.
Proof.
  unfold span. rewrite length_append.
  replace (String.length u + String.length s - String.length s) with (String.length u) by lia.
  apply substring_append_l.
Qed.

Lemma span_nil (u : string) : span u "" = u.
Proof.
  pose proof (span_append u "") as H. now rewrite append_nil_r in H.
Qed.

Lemma last_char_append prev (u v : string) :
  last_char prev (u +:+ v) = last_char (last_char prev u) v.
Proof. revert prev. induction u as [|c u IH]; intros prev; simpl; [reflexivity | apply IH]. Qed.

(** A non-empty string ends with its last character. *)
Lemma last_string_split (s : string) :
  s <> "" -> exists u c, s = u +:+ String c "" /\ last_string s = String c "".
Proof.
  induction s as [|c s IH]; [congruence|]. intros _.
  destruct s as [|d s].
  - exists "", c. split; reflexivity.
  - destruct IH as [u [e [Hs Hl]]]; [discriminate|].
    exists (String c u), e. split.
    + simpl. now rewrite <- Hs.
    + simpl in *. exact Hl.
Qed.

(** A string is its leading whitespace followed by its [lstrip]. *)
Lemma lstrip_split (s : string) :
  exists ws, s = ws +:+ lstrip s /\ all_chars isspace ws = true.
Proof.
  induction s as [|c s [ws [Hs Hw]]]; simpl.
  - exists "". split; reflexivity.
  - destruct (isspace c) eqn:E.
    + exists (String c ws). simpl. rewrite E, Hw. split; [now rewrite <- Hs | reflexivity].
    + exists "". split; reflexivity.
Qed.

Lemma lstrip_head (s : string) c t : lstrip s = String c t -> isspace c = false.
Proof.
  induction s as [|d s IH]; simpl; [discriminate|].
  destruct (isspace d) eqn:E; [exact IH|].
  intros H. injection H as <- _. exact E.
Qed.

Lemma lstrip_idem (s : string) : lstrip (lstrip s) = lstrip s.
Proof.
  destruct (lstrip s) as [|c t] eqn:E; [reflexivity|].
  simpl. now rewrite (lstrip_head s c t E).
Qed.

Lemma lstrip_nil_iff (s : string) : lstrip s = "" <-> all_chars isspace s = true.
Proof.
  induction s as [|c s IH]; simpl; [tauto|].
  destruct (isspace c); simpl; [exact IH | split; discriminate].
Qed.

Lemma lstrip_space (s : string) : all_chars isspace s = true -> lstrip s = "".
Proof. apply lstrip_nil_iff. Qed.

Lemma strip_space (s : string) : all_chars isspace s = true -> strip s = "".
Proof. intros H. unfold strip. now rewrite lstrip_space. Qed.

Lemma rstrip_nil_iff (s : string) : rstrip s = "" <-> all_chars isspace s = true.
Proof.
  induction s as [|c s IH]; simpl; [tauto|].
  destruct (rstrip s) eqn:E.
  - destruct (isspace c); simpl; [tauto | split; discriminate].
  - destruct (isspace c); simpl; split; try discriminate.
    intros H. apply IH in H. discriminate.
Qed.

(** [strip] leaves something exactly when some character is not whitespace. *)
Lemma strip_nonempty_iff (s : string) : strip s <> "" <-> has_text s.
Proof.
  unfold strip, has_text. rewrite rstrip_nil_iff.
  destruct (lstrip_split s) as [ws [Hs Hw]].
  rewrite Hs at 2. rewrite all_chars_append, Hw. simpl.
  destruct (all_chars isspace (lstrip s)); split; congruence.
Qed.

Lemma strip_desc_group (rest : string) : strip (desc_group rest) = strip rest.
Proof.
  unfold desc_group. destruct (lstrip rest) as [|c t] eqn:E.
  - unfold strip at 2. rewrite E. simpl.
    apply lstrip_nil_iff in E.
    destruct rest as [|r0 rest']; [reflexivity|].
    destruct (last_string_split (String r0 rest')) as [u [e [Hs Hl]]]; [discriminate|].
    rewrite Hl. rewrite Hs, all_chars_append in E. simpl in E.
    apply andb_true_iff in E. destruct E as [_ E]. rewrite andb_true_r in E.
    apply strip_space. simpl. now rewrite E.
  - unfold strip. rewrite <- E. now rewrite lstrip_idem.
Qed.

(** ** The matcher *)

Section MatcherFacts.

Context {A : Type}.

Implicit Types (k : option ascii -> string -> option A)
  (K : option ascii -> string -> captures -> option A).

(** Whatever [star] answers comes from the continuation, called after a run
    of characters of the class. *)
Lemma star_sound p prev s k x :
  star p prev s k = Some x ->
  exists u s' prev', s = u +:+ s' /\ all_chars p u = true /\ k prev' s' = Some x.
Proof.
  revert prev. induction s as [|d s IH]; intros prev; simpl.
  - intros H. exists "", "", prev. auto.
  - destruct (p d) eqn:E.
    + destruct (star p (Some d) s k) as [y|] eqn:Es.
      * intros [= ->]. destruct (IH _ Es) as (u & s' & prev' & -> & Hu & Hk).
        exists (String d u), s', prev'. simpl. rewrite E, Hu. auto.
      * intros H. exists "", (String d s), prev. auto.
    + intros H. exists "", (String d s), prev. auto.
Qed.

(** The longest run wins when the continuation accepts it. *)
Lemma star_greedy p prev u s k x :
  all_chars p u = true ->
  k (last_char prev u) s = Some x ->
  match s with String d _ => p d = false | EmptyString => True end ->
  star p prev (u +:+ s) k = Some x.
Proof.
  revert prev. induction u as [|c u IH]; intros prev Hu Hk Hs; simpl in *.
  - destruct s as [|d s]; simpl; [exact Hk|]. now rewrite Hs.
  - apply andb_true_iff in Hu. destruct Hu as [Hc Hu].
    rewrite Hc. now rewrite (IH (Some c) Hu Hk Hs).
Qed.

(** When the continuation refuses the whole run, the last character is
    given back. *)
Lemma star_back_off p prev u c k x :
  all_chars p (u +:+ String c "") = true ->
  (forall prev', k prev' "" = None) ->
  k (last_char prev u) (String c "") = Some x ->
  star p prev (u +:+ String c "") k = Some x.
Proof.
  revert prev. induction u as [|d u IH]; intros prev Hu Hn Hk; simpl in *.
  - rewrite andb_true_r in Hu. now rewrite Hu, Hn.
  - apply andb_true_iff in Hu. destruct Hu as [Hd Hu].
    rewrite Hd. now rewrite (IH (Some d) Hu Hn Hk).
Qed.

Lemma run_sound ic r prev s m K x :
  run ic r prev s m K = Some x ->
  exists u s' prev' m', s = u +:+ s' /\ lang ic r u /\ K prev' s' m' = Some x.
Proof.
  revert prev s m K.
  induction r as [c|p|r1 IH1 r2 IH2|r1 IH1 r2 IH2|r1 IH1|p|p|name r1 IH1|];
    intros prev s m K; simpl.
  - destruct s as [|d s]; [discriminate|].
    destruct (lit_eq ic c d) eqn:E; [|discriminate].
    intros H. exists (String d ""), s, (Some d), m. split; [reflexivity|].
    split; [now constructor | exact H].
  - destruct s as [|d s]; [discriminate|].
    destruct (p d) eqn:E; [|discriminate].
    intros H. exists (String d ""), s, (Some d), m. split; [reflexivity|].
    split; [now constructor | exact H].
  - intros H. apply IH1 in H. destruct H as (u1 & s1 & p1 & m1 & -> & L1 & H).
    apply IH2 in H. destruct H as (u2 & s2 & p2 & m2 & -> & L2 & H).
    exists (u1 +:+ u2), s2, p2, m2. rewrite append_assoc.
    split; [reflexivity|]. split; [now constructor | exact H].
  - destruct (run ic r1 prev s m K) as [y|] eqn:E1.
    + intros [= ->]. apply IH1 in E1. destruct E1 as (u & s' & p' & m' & -> & L & H).
      exists u, s', p', m'. split; [reflexivity|]. split; [now apply lang_alt_l | exact H].
    + intros H. apply IH2 in H. destruct H as (u & s' & p' & m' & -> & L & H).
      exists u, s', p', m'. split; [reflexivity|]. split; [now apply lang_alt_r | exact H].
  - destruct (run ic r1 prev s m K) as [y|] eqn:E1.
    + intros [= ->]. apply IH1 in E1. destruct E1 as (u & s' & p' & m' & -> & L & H).
      exists u, s', p', m'. split; [reflexivity|]. split; [now apply lang_opt_take | exact H].
    + intros H. exists "", s, prev, m. split; [reflexivity|].
      split; [apply lang_opt_skip | exact H].
  - intros H. apply star_sound in H. destruct H as (u & s' & p' & -> & Hu & H).
    exists u, s', p', m. split; [reflexivity|]. split; [now constructor | exact H].
  - destruct s as [|d s]; [discriminate|].
    destruct (p d) eqn:E; [|discriminate].
    intros H. apply star_sound in H. destruct H as (u & s' & p' & -> & Hu & H).
    exists (String d u), s', p', m. split; [reflexivity|].
    split; [| exact H]. constructor; [discriminate | simpl; now rewrite E, Hu].
  - intros H. apply IH1 in H. destruct H as (u & s' & p' & m' & -> & L & H).
    exists u, s', p', ((name, span (u +:+ s') s') :: m').
    split; [reflexivity|]. split; [now constructor | exact H].
  - destruct (xorb (word_before prev) (word_after s)); [|discriminate].
    intros H. exists "", s, prev, m. split; [reflexivity|].
    split; [constructor | exact H].
Qed.

(** A literal word under [re.I]: it matches exactly when the lower-cased
    subject starts with the lower-cased word. *)
Lemma run_word w prev u s m K :
  w <> "" -> String.length u = String.length w ->
  run true (word w) prev (u +:+ s) m K =
  if startswith (lower u) (lower w) then K (last_char prev u) s m else None.
Proof.
  revert prev u. induction w as [|c w IH]; intros prev u Hw Hl; [congruence|].
  destruct u as [|d u]; [discriminate|]. simpl in Hl. injection Hl as Hl.
  destruct w as [|c' w].
  - destruct u; [|discriminate]. simpl. unfold lit_eq.
    destruct (Ascii.eqb (lower_char d) (lower_char c)); reflexivity.
  - change (word (String c (String c' w))) with (Seq (Lit c) (word (String c' w))).
    cbn [run]. change (String d u +:+ s) with (String d (u +:+ s)). cbn iota.
    unfold lit_eq. cbn [lower startswith last_char].
    destruct (Ascii.eqb (lower_char d) (lower_char c)); [|reflexivity].
    rewrite IH by (discriminate || assumption). reflexivity.
Qed.

(** A literal word against a subject too short for it. *)
Lemma run_word_fail w prev v m K :
  w <> "" -> startswith (lower v) (lower w) = false ->
  run true (word w) prev v m K = None.
Proof.
  revert prev v. induction w as [|c w IH]; intros prev v Hw Hs; [congruence|].
  destruct w as [|c' w].
  - destruct v as [|d v]; [reflexivity|]. cbn [word run]. unfold lit_eq.
    cbn [lower startswith] in Hs.
    destruct (Ascii.eqb (lower_char d) (lower_char c)); [|reflexivity].
    destruct (lower v); discriminate Hs.
  - change (word (String c (String c' w))) with (Seq (Lit c) (word (String c' w))).
    cbn [run]. destruct v as [|d v]; [reflexivity|].
    unfold lit_eq. cbn [lower startswith] in Hs.
    destruct (Ascii.eqb (lower_char d) (lower_char c)); [|reflexivity].
    apply IH; [discriminate | exact Hs].
Qed.

End MatcherFacts.

(** ** The conventional pattern *)

Ltac eval_startswith :=
  repeat match goal with
         | |- context [startswith ?a ?b] =>
             let v := eval vm_compute in (startswith a b) in
             change (startswith a b) with v
         end.

(** The alternation of the eight type keywords consumes the type and
    nothing else: no keyword is the beginning of another. *)
Lemma run_type_alt {A : Type} ty prev s m (K : option ascii -> string -> captures -> option A) :
  In (lower ty) CommitParser.type_keywords ->
  run true (alt (map word CommitParser.type_keywords)) prev (ty +:+ s) m K =
  K (last_char prev ty) s m.
Proof.
  intros H. cbn [alt map CommitParser.type_keywords run].
  simpl in H.
  repeat (destruct H as [H|H]); try contradiction;
    (repeat match goal with
            | |- context [run true (word ?w) ?p (?u +:+ ?v) ?m0 ?K0] =>
                first
                  [ rewrite (run_word w p u v m0 K0)
                      by (discriminate || (rewrite <- (lower_length u), <- H; reflexivity))
                  | rewrite (run_word_fail w p (u +:+ v) m0 K0)
                      by (discriminate || (rewrite lower_append, <- H; reflexivity)) ]
            end);
    rewrite <- H; eval_startswith; cbv iota;
    destruct (K (last_char prev ty) s m); reflexivity.
Qed.

(** [\s*(?P<desc>.+)] on the text after the colon. *)
Lemma run_desc prev rest m :
  rest <> "" -> all_chars dot_class rest = true ->
  run true (Seq (Star space_class) (Group "desc" (Plus dot_class))) prev rest m final =
  Some (("desc", desc_group rest) :: m).
Proof.
  intros Hne Hdot. cbn [run]. unfold desc_group.
  destruct (lstrip_split rest) as [ws [Hs Hw]].
  destruct (lstrip rest) as [|c t] eqn:E.
  - rewrite append_nil_r in Hs. subst ws.
    destruct (last_string_split rest Hne) as [u [e [Hu Hl]]].
    rewrite Hl. rewrite Hu in Hw, Hdot |- *.
    apply star_back_off; [exact Hw | reflexivity |].
    rewrite all_chars_append in Hdot. apply andb_true_iff in Hdot.
    destruct Hdot as [_ He]. simpl in He. rewrite andb_true_r in He.
    simpl. rewrite He. reflexivity.
  - rewrite Hs at 1. rewrite Hs, all_chars_append in Hdot.
    apply andb_true_iff in Hdot. destruct Hdot as [_ Hd]. simpl in Hd.
    apply andb_true_iff in Hd. destruct Hd as [Hc Ht].
    apply star_greedy; [exact Hw | | exact (lstrip_head rest c t E)].
    cbn iota beta. rewrite Hc.
    rewrite <- (append_nil_r t) at 1.
    apply star_greedy; [exact Ht | | exact I].
    unfold final. now rewrite span_nil.
Qed.

(** [(!)?:] and the rest. *)
Lemma run_bang prev bang rest m :
  rest <> "" -> all_chars dot_class rest = true ->
  run true
    (Seq (Opt (Lit "!"))
       (Seq (Lit ":") (Seq (Star space_class) (Group "desc" (Plus dot_class)))))
    prev (bang_text bang +:+ ":" +:+ rest) m final =
  Some (("desc", desc_group rest) :: m).
Proof.
  intros Hne Hdot.
  pose proof (fun p => run_desc p rest m Hne Hdot) as Hd.
  destruct bang; cbn [run bang_text]; simpl String.append; cbv iota;
    change (lit_eq true "!" "!") with true;
    change (lit_eq true ":" ":") with true;
    change (lit_eq true "!" ":") with false; cbv iota;
    cbn [run] in Hd; now rewrite Hd.
Qed.

(** The equations of [run], one construct at a time. *)
Section RunEquations.

Context {A : Type}.

Implicit Types (K : option ascii -> string -> captures -> option A).

Lemma run_seq ic r1 r2 prev s m K :
  run ic (Seq r1 r2) prev s m K =
  run ic r1 prev s m (fun prev' s' m' => run ic r2 prev' s' m' K).
Proof. reflexivity. Qed.

Lemma run_opt ic r prev s m K :
  run ic (Opt r) prev s m K =
  match run ic r prev s m K with Some x => Some x | None => K prev s m end.
Proof. reflexivity. Qed.

Lemma run_lit ic c prev d s m K :
  run ic (Lit c) prev (String d s) m K =
  if lit_eq ic c d then K (Some d) s m else None.
Proof. reflexivity. Qed.

Lemma run_group ic name r prev s m K :
  run ic (Group name r) prev s m K =
  run ic r prev s m (fun prev' s' m' => K prev' s' ((name, span s s') :: m')).
Proof. reflexivity. Qed.

Lemma run_plus ic p prev d s m K :
  run ic (Plus p) prev (String d s) m K =
  if p d then star p (Some d) s (fun prev' s' => K prev' s' m) else None.
Proof. reflexivity. Qed.

End RunEquations.

Lemma scope_text_append (s t : string) :
  scope_text (Some s) +:+ t = String "(" (s +:+ String ")" t).
Proof. simpl. now rewrite append_assoc. Qed.

(** [(\((?P<scope>[^)]+)\))?] and the rest. *)
Lemma run_scope prev sc bang rest m :
  match sc with
  | Some s => s <> "" /\ all_chars not_rparen s = true
  | None => True
  end ->
  rest <> "" -> all_chars dot_class rest = true ->
  run true
    (Seq (Opt (Seq (Lit "(") (Seq (Group "scope" (Plus not_rparen)) (Lit ")"))))
       (Seq (Opt (Lit "!"))
          (Seq (Lit ":") (Seq (Star space_class) (Group "desc" (Plus dot_class))))))
    prev (scope_text sc +:+ bang_text bang +:+ ":" +:+ rest) m final =
  Some (("desc", desc_group rest) :: scope_captures sc ++ m).
Proof.
  intros Hsc Hne Hdot.
  pose proof (fun p m => run_bang p bang rest m Hne Hdot) as Hb.
  set (t := bang_text bang +:+ ":" +:+ rest) in *.
  rewrite run_seq, run_opt.
  destruct sc as [sc|]; cbn [scope_captures app].
  - destruct Hsc as [Hs0 Hs]. destruct sc as [|c sc]; [congruence|].
    simpl in Hs. apply andb_true_iff in Hs. destruct Hs as [Hc Hs].
    rewrite scope_text_append.
    change (String c sc +:+ String ")" t) with (String c (sc +:+ String ")" t)).
    rewrite run_seq, run_lit. change (lit_eq true "(" "(") with true. cbv iota.
    rewrite run_seq, run_group, run_plus, Hc.
    rewrite (star_greedy not_rparen (Some c) sc (String ")" t) _
               (("desc", desc_group rest) :: ("scope", String c sc) :: m));
      [reflexivity | exact Hs | | reflexivity].
    rewrite run_lit. change (lit_eq true ")" ")") with true. cbv iota.
    rewrite Hb.
    change (String c (sc +:+ String ")" t)) with (String c sc +:+ String ")" t).
    now rewrite span_append.
  - change (scope_text None +:+ t) with t.
    replace (run true (Seq (Lit "(") (Seq (Group "scope" (Plus not_rparen)) (Lit ")")))
               prev t m _) with (None : option captures).
    + apply Hb.
    + rewrite run_seq. unfold t. destruct bang; reflexivity.
Qed.

(** The whole pattern on a conventional line. *)
Lemma match_conventional ty sc bang rest :
  header_ok ty sc rest -> all_chars dot_class rest = true ->
  re_match true CommitParser.CONVENTIONAL_RE (conventional_line ty sc bang rest) =
  Some (("desc", desc_group rest) :: scope_captures sc ++ [("type", ty)]).
Proof.
  intros (Hty & Hsc & Hne) Hdot.
  unfold re_match, CommitParser.CONVENTIONAL_RE, conventional_line.
  fold (@final). rewrite run_seq, run_group.
  rewrite (run_type_alt ty None _ [] _ Hty).
  rewrite span_append. now apply run_scope.
Qed.

(** ** [CommitParser.parse] *)

Lemma splitlines_no_break_aux (n : nat) (s : string) :
  String.length s <= n ->
  Forall (fun l => all_chars (fun c => negb (is_linebreak c)) l = true) (splitlines s).
Proof.
  revert s. induction n as [|n IH]; intros s Hn.
  - destruct s; [constructor | simpl in Hn; lia].
  - destruct s as [|c s]; [constructor|]. simpl in Hn.
    cbn [splitlines]. destruct (is_linebreak c) eqn:E.
    + destruct s as [|d s]; [repeat constructor|].
      destruct (Ascii.eqb c "013" && Ascii.eqb d "010").
      * constructor; [reflexivity|]. apply IH. simpl in Hn. lia.
      * constructor; [reflexivity|]. apply IH. lia.
    + assert (H : Forall (fun l => all_chars (fun c => negb (is_linebreak c)) l = true)
                    (splitlines s)) by (apply IH; lia).
      destruct (splitlines s) as [|l ls].
      * constructor; [simpl; now rewrite E | constructor].
      * apply Forall_cons in H. destruct H as [Hl Hls].
        constructor; [simpl; now rewrite E, Hl | exact Hls].
Qed.

Lemma is_linebreak_dot (c : ascii) : is_linebreak c = false -> dot_class c = true.
Proof.
  unfold dot_class. destruct (Ascii.eqb_spec c "010") as [->|]; [discriminate | reflexivity].
Qed.

Lemma all_chars_impl (p q : ascii -> bool) (s : string) :
  (forall c, p c = true -> q c = true) -> all_chars p s = true -> all_chars q s = true.
Proof.
  intros H. induction s as [|c s IH]; simpl; [reflexivity|].
  intros Hp. apply andb_true_iff in Hp. destruct Hp as [Hc Hs].
  now rewrite (H c Hc), IH.
Qed.

(** The first line of a message holds no line feed. *)
Lemma first_line_dot (msg : string) : all_chars dot_class (hd "" (splitlines msg)) = true.
Proof.
  pose proof (splitlines_no_break_aux _ msg (le_n _)) as H.
  destruct (splitlines msg) as [|l ls]; [reflexivity|]. simpl.
  apply Forall_cons in H. destruct H as [Hl _].
  eapply all_chars_impl; [| exact Hl].
  intros c Hc. apply is_linebreak_dot. apply negb_true_iff. exact Hc.
Qed.

Lemma body_of_remaining (lines : list string) :
  CommitParser.body_of lines = remaining_lines lines.
Proof.
  unfold CommitParser.body_of, remaining_lines.
  destruct lines as [|l [|l' ls]]; reflexivity.
Qed.

(** [parse] on a message whose first line is conventional. *)
Lemma parse_conventional_line (msg ty : string) (sc : option string) (bang : bool)
    (rest : string) :
  hd "" (splitlines msg) = conventional_line ty sc bang rest ->
  header_ok ty sc rest ->
  CommitParser.parse msg =
  (lower ty, sc, strip rest, remaining_lines (splitlines msg)).
Proof.
  intros Hfirst Hok. unfold CommitParser.parse.
  assert (Hdot : all_chars dot_class rest = true).
  { pose proof (first_line_dot msg) as H. rewrite Hfirst in H.
    unfold conventional_line in H. rewrite !all_chars_append in H.
    repeat (apply andb_true_iff in H; destruct H as [_ H]). exact H. }
  rewrite Hfirst, (match_conventional ty sc bang rest Hok Hdot).
  rewrite body_of_remaining. unfold CommitParser.group_str.
  destruct sc as [sc|]; cbn [scope_captures app group String.eqb Ascii.eqb Bool.eqb];
    now rewrite strip_desc_group.
Qed.

(** C7. When the first line of the message is
    [<type>[(<scope>)][!]:<rest>], the type being one of the eight keywords
    up to case, [parse] returns the type lower-cased, the text between the
    parentheses when there is a scope and none otherwise, the text after the
    colon trimmed, and the remaining lines joined and trimmed (none when the
    message has one line).  On the message of the scenario it returns the
    category "feat", which the specification calls feature, the scope
    "auth", the description "add OAuth login" and the body "Supports Google
    and GitHub providers.". *)
Theorem parse_conventional (msg ty : string) (sc : option string) (bang : bool)
    (rest : string) :
  (hd "" (splitlines msg) = conventional_line ty sc bang rest ->
   header_ok ty sc rest ->
   CommitParser.parse msg =
   (lower ty, sc, strip rest, remaining_lines (splitlines msg))) /\
  CommitParser.parse
    ("feat(auth): add OAuth login" +:+ nl +:+ nl +:+ "Supports Google and GitHub providers.") =
  (keyword_of Feature, Some "auth", "add OAuth login",
   Some "Supports Google and GitHub providers.").
Proof.
  split; [apply parse_conventional_line | reflexivity].
Qed.

Lemma parse_conventional_witness :
  CommitParser.parse ("Fix(ui)!:  align buttons " +:+ nl +:+ "see #12") =
  ("fix", Some "ui", "align buttons", Some "see #12").
Proof.
  apply (proj1 (parse_conventional ("Fix(ui)!:  align buttons " +:+ nl +:+ "see #12")
                  "Fix" (Some "ui") true "  align buttons ")).
  - reflexivity.
  - repeat split; simpl; auto; discriminate.
Defined.

(** *** Every match of the pattern is a conventional line *)

Lemma lang_word_lower (w u : string) :
  w <> "" -> lang true (word w) u -> lower u = lower w.
Proof.
  revert u. induction w as [|c w IH]; intros u Hw H; [congruence|].
  destruct w as [|c' w].
  - simpl in H. inversion H as [c0 d E| | | | | | | | | |]; subst.
    unfold lit_eq in E. apply Ascii.eqb_eq in E. simpl. now rewrite E.
  - change (word (String c (String c' w))) with (Seq (Lit c) (word (String c' w))) in H.
    inversion H as [| |r1 r2 u1 u2 H1 H2| | | | | | | |]; subst.
    inversion H1 as [c0 d E| | | | | | | | | |]; subst.
    unfold lit_eq in E. apply Ascii.eqb_eq in E.
    change (String d "" +:+ u2) with (String d u2).
    cbn [lower]. rewrite E. f_equal. apply IH; [discriminate | exact H2].
Qed.

Lemma lang_alt_words (ws : list string) (u : string) :
  lang true (alt (map word ws)) u ->
  exists w, In w ws /\ lang true (word w) u.
Proof.
  induction ws as [|w0 ws IH]; intros H.
  - simpl in H. inversion H as [|p d E| | | | | | | | |]; discriminate E.
  - destruct ws as [|w1 ws].
    + exists w0. split; [now left | exact H].
    + change (alt (map word (w0 :: w1 :: ws)))
        with (Alt (word w0) (alt (map word (w1 :: ws)))) in H.
      inversion H as [| | |r1 r2 u0 H1|r1 r2 u0 H2| | | | | |]; subst.
      * exists w0. split; [now left | exact H1].
      * destruct (IH H2) as [w [Hw Hl]]. exists w. split; [now right | exact Hl].
Qed.

(** Under [re.I] a punctuation sign still matches itself only. *)
Lemma lit_eq_punct (c d : ascii) :
  In c ["("; ")"; "!"; ":"]%char -> lit_eq true c d = true -> d = c.
Proof.
  intros Hc E. unfold lit_eq in E. apply Ascii.eqb_eq in E.
  simpl in Hc.
  destruct Hc as [<-|[<-|[<-|[<-|[]]]]];
    destruct d as [[|] [|] [|] [|] [|] [|] [|] [|]];
    solve [reflexivity | discriminate E].
Qed.

Lemma conventional_line_append ty sc bang rest s :
  conventional_line ty sc bang rest +:+ s = conventional_line ty sc bang (rest +:+ s).
Proof.
  unfold conventional_line. now rewrite !append_assoc.
Qed.

Lemma append_nonempty_l (a b : string) : a <> "" -> a +:+ b <> "".
Proof. destruct a; [congruence | discriminate]. Qed.

Lemma append_nonempty_r (a b : string) : b <> "" -> a +:+ b <> "".
Proof. destruct a; [trivial | discriminate]. Qed.

Lemma lang_conventional (u : string) :
  lang true CommitParser.CONVENTIONAL_RE u -> conventional u.
Proof.
  unfold CommitParser.CONVENTIONAL_RE. intros H.
  inversion H as [| |? ? ty v1 Hty H1| | | | | | | |]; subst; clear H.
  inversion Hty as [| | | | | | | | |? ? ? Hty'|]; subst; clear Hty.
  apply (lang_alt_words CommitParser.type_keywords) in Hty'.
  destruct Hty' as [w [Hw Hty]].
  assert (Hlow : lower ty = w).
  { assert (w <> "" /\ lower w = w) as [Hne Hl].
    { simpl in Hw. repeat (destruct Hw as [<-|Hw]; [split; [discriminate | reflexivity]|]).
      destruct Hw. }
    rewrite <- Hl. now apply lang_word_lower. }
  inversion H1 as [| |? ? u2 v2 Hsc H2| | | | | | | |]; subst; clear H1.
  inversion H2 as [| |? ? u3 v3 Hbang H3| | | | | | | |]; subst; clear H2.
  inversion H3 as [| |? ? u4 v4 Hcolon H4| | | | | | | |]; subst; clear H3.
  inversion H4 as [| |? ? ws d Hws Hd| | | | | | | |]; subst; clear H4.
  inversion Hd as [| | | | | | | | |? ? ? Hd'|]; subst; clear Hd.
  inversion Hd' as [| | | | | | | |? ? Hdne Hdall| |]; subst; clear Hd'.
  inversion Hcolon as [? dc Ec| | | | | | | | | |]; subst; clear Hcolon.
  apply lit_eq_punct in Ec; [subst dc | simpl; tauto].
  assert (Hbang' : exists bang, u3 = bang_text bang).
  { inversion Hbang as [| | | | |? |? ? Hb| | | |]; subst.
    - now exists false.
    - inversion Hb as [? db Eb| | | | | | | | | |]; subst.
      apply lit_eq_punct in Eb; [subst db | simpl; tauto]. now exists true. }
  destruct Hbang' as [bang ->].
  assert (Hsc' : exists sc, u2 = scope_text sc /\
                   match sc with
                   | Some s => s <> "" /\ all_chars not_rparen s = true
                   | None => True
                   end).
  { inversion Hsc as [| | | | |? |? ? Hs| | | |]; subst.
    - now exists None.
    - inversion Hs as [| |? ? o x Ho Hx| | | | | | | |]; subst.
      inversion Hx as [| |? ? y z Hy Hz| | | | | | | |]; subst.
      inversion Ho as [? d1 E1| | | | | | | | | |]; subst.
      inversion Hz as [? d2 E2| | | | | | | | | |]; subst.
      inversion Hy as [| | | | | | | | |? ? ? Hy'|]; subst.
      inversion Hy' as [| | | | | | | |? ? Hyne Hyall| |]; subst.
      apply lit_eq_punct in E1; [subst d1 | simpl; tauto].
      apply lit_eq_punct in E2; [subst d2 | simpl; tauto].
      exists (Some y). split; [reflexivity | now split]. }
  destruct Hsc' as [sc [-> Hscok]].
  exists ty, sc, bang, (ws +:+ d). split.
  - unfold conventional_line. reflexivity.
  - split; [exact Hw|]. split; [exact Hscok|].
    now apply append_nonempty_r.
Qed.

(** The pattern matches the conventional lines and no other. *)
Lemma match_sound (first : string) (m : captures) :
  re_match true CommitParser.CONVENTIONAL_RE first = Some m -> conventional first.
Proof.
  unfold re_match. intros H. apply run_sound in H.
  destruct H as (u & s' & _ & _ & -> & L & _).
  apply lang_conventional in L.
  destruct L as (ty & sc & bang & rest & -> & Hty & Hsc & Hne).
  exists ty, sc, bang, (rest +:+ s'). split.
  - apply conventional_line_append.
  - split; [exact Hty|]. split; [exact Hsc|]. now apply append_nonempty_l.
Qed.

Lemma not_conventional_no_match (first : string) :
  ~ conventional first -> re_match true CommitParser.CONVENTIONAL_RE first = None.
Proof.
  intros H. destruct (re_match true CommitParser.CONVENTIONAL_RE first) as [m|] eqn:E.
  - exfalso. apply H. now apply (match_sound first m).
  - reflexivity.
Qed.

(** *** The fallback scan *)

Lemma startswith_iff (s t : string) : startswith s t = true <-> exists v, s = t +:+ v.
Proof.
  revert s. induction t as [|b t IH]; intros s; simpl.
  - split; [intros _; now exists s | reflexivity].
  - destruct s as [|a s].
    + split; [discriminate | intros [v Hv]; discriminate].
    + rewrite andb_true_iff, IH, Ascii.eqb_eq. split.
      * intros [-> [v ->]]. now exists v.
      * intros [v Hv]. injection Hv as -> ->. split; [reflexivity | now exists v].
Qed.

Lemma contains_iff (t s : string) :
  contains t s = true <-> exists u v, s = u +:+ t +:+ v.
Proof.
  induction s as [|a s IH].
  - cbn [contains]. rewrite orb_false_r, startswith_iff. split.
    + intros [v Hv]. now exists "", v.
    + intros [u [v Hv]]. destruct u; [now exists v | discriminate].
  - cbn [contains]. rewrite orb_true_iff, startswith_iff, IH. split.
    + intros [[v Hv]|[u [v Hv]]].
      * now exists "", v.
      * exists (String a u), v. simpl. now rewrite Hv.
    + intros [u [v Hv]]. destruct u as [|b u].
      * left. now exists v.
      * right. simpl in Hv. injection Hv as _ ->. now exists u, v.
Qed.

Lemma keyword_found_iff (lowered t : string) :
  CommitParser.keyword_found lowered t = true <-> keyword_in_line lowered t.
Proof.
  unfold CommitParser.keyword_found, keyword_in_line.
  rewrite !orb_true_iff, startswith_iff, contains_iff, mem_In.
  setoid_rewrite append_assoc. tauto.
Qed.

Lemma guess_loop_first (ts : list string) (lowered guessed : string) :
  let cat := CommitParser.guess_loop ts lowered guessed in
  (exists before after,
     ts = before ++ cat :: after /\ keyword_in_line lowered cat /\
     forall t, In t before -> ~ keyword_in_line lowered t) \/
  (cat = guessed /\ forall t, In t ts -> ~ keyword_in_line lowered t).
Proof.
  cbv zeta. induction ts as [|t ts IH]; simpl.
  - right. split; [reflexivity | intros t []].
  - destruct (CommitParser.keyword_found lowered t) eqn:E.
    + left. exists [], ts. split; [reflexivity|].
      split; [now apply keyword_found_iff | intros t' []].
    + assert (Hn : ~ keyword_in_line lowered t).
      { rewrite <- keyword_found_iff, E. discriminate. }
      destruct IH as [(before & after & Hts & Hin & Hb)|[Hc Hall]].
      * left. exists (t :: before), after. split; [simpl; now rewrite <- Hts|].
        split; [exact Hin|]. intros t' [<-|Ht']; auto.
      * right. split; [exact Hc|]. intros t' [<-|Ht']; auto.
Qed.

(** [parse] on a message whose first line is not conventional. *)
Lemma parse_other_line (msg : string) :
  let first := hd "" (splitlines msg) in
  ~ conventional first ->
  CommitParser.parse msg =
  (CommitParser.guess_loop CommitParser.fallback_types (lower first) "chore",
   None, strip first, remaining_lines (splitlines msg)).
Proof.
  cbv zeta. intros H. unfold CommitParser.parse.
  now rewrite (not_conventional_no_match _ H), body_of_remaining.
Qed.

(** C8. When the first line of the message is not conventional, [parse]
    gives as category the first keyword, in the order feature, fix, docs,
    refactor, performance, test, style, that shows in the lower-cased first
    line as a prefix, before a colon, or as a whole word, and chore when
    none shows; the description is the first line trimmed, the scope is
    none.  The empty message gives chore and the empty description. *)
Theorem parse_fallback (msg : string) :
  let first := hd "" (splitlines msg) in
  (~ conventional first ->
   first_found (lower first) (category (CommitParser.parse msg)) /\
   scope (CommitParser.parse msg) = None /\
   short_description (CommitParser.parse msg) = strip first /\
   body (CommitParser.parse msg) = remaining_lines (splitlines msg)) /\
  CommitParser.fallback_types = map keyword_of priority /\
  CommitParser.parse "" = (keyword_of Chore, None, "", None).
Proof.
  cbv zeta. split; [| split; reflexivity].
  intros H. rewrite (parse_other_line msg H).
  unfold category, scope, short_description, body. cbn [fst snd].
  repeat split.
  apply (guess_loop_first CommitParser.fallback_types).
Qed.

(** A conventional first line is matched, so a line the pattern refuses is
    not conventional: this decides the hypothesis on a given line. *)
Lemma not_conventional_by_match (first : string) :
  all_chars dot_class first = true ->
  re_match true CommitParser.CONVENTIONAL_RE first = None ->
  ~ conventional first.
Proof.
  intros Hdot Hnone (ty & sc & bang & rest & -> & Hok).
  rewrite match_conventional in Hnone; [discriminate | exact Hok |].
  unfold conventional_line in Hdot. rewrite !all_chars_append in Hdot.
  repeat (apply andb_true_iff in Hdot; destruct Hdot as [_ Hdot]). exact Hdot.
Qed.

(** On the first line of a message the pattern matches exactly the
    conventional lines, and a match binds the groups [type] and [desc] that
    [parse] reads. *)
Lemma conventional_iff_match (msg : string) :
  let first := hd "" (splitlines msg) in
  conventional first <->
  exists m, re_match true CommitParser.CONVENTIONAL_RE first = Some m /\
            group m "type" <> None /\ group m "desc" <> None.
Proof.
  cbv zeta. split.
  - intros (ty & sc & bang & rest & Hfirst & Hok).
    pose proof (first_line_dot msg) as Hdot. rewrite Hfirst in Hdot |- *.
    unfold conventional_line in Hdot. rewrite !all_chars_append in Hdot.
    repeat (apply andb_true_iff in Hdot; destruct Hdot as [_ Hdot]).
    rewrite (match_conventional ty sc bang rest Hok Hdot).
    eexists. split; [reflexivity|]. destruct sc; split; discriminate.
  - intros (m & Hm & _). now apply (match_sound _ m).
Qed.

Lemma parse_fallback_witness :
  first_found (lower "Fixed a crash on startup")
    (category (CommitParser.parse "Fixed a crash on startup")) /\
  scope (CommitParser.parse "Fixed a crash on startup") = None /\
  short_description (CommitParser.parse "Fixed a crash on startup") =
    strip "Fixed a crash on startup" /\
  body (CommitParser.parse "Fixed a crash on startup") = None.
Proof.
  apply (proj1 (parse_fallback "Fixed a crash on startup")).
  apply not_conventional_by_match; reflexivity.
Defined.

(** C2 fails as stated: the message made of one space is not empty and
    its description is. *)
Lemma short_description_can_be_empty :
  ~ (forall message : string,
       message <> "" -> short_description (CommitParser.parse message) <> "").
Proof.
  intros H. apply (H " "); [discriminate | reflexivity].
Qed.

(** C2, amended. The description is not empty exactly when some character
    that is not whitespace stands in the first line of the message or, when
    that line is conventional, after its colon.  (A message that is not
    empty may fail this: a blank first line, or a conventional prefix
    followed by whitespace only.) *)
Theorem short_description_nonempty (msg : string) :
  let first := hd "" (splitlines msg) in
  (~ conventional first ->
   (short_description (CommitParser.parse msg) <> "" <-> has_text first)) /\
  (forall ty sc bang rest,
     first = conventional_line ty sc bang rest -> header_ok ty sc rest ->
     (short_description (CommitParser.parse msg) <> "" <-> has_text rest)).
Proof.
  cbv zeta. split.
  - intros H. rewrite (parse_other_line msg H).
    unfold short_description. cbn [fst snd]. apply strip_nonempty_iff.
  - intros ty sc bang rest Hfirst Hok.
    rewrite (parse_conventional_line msg ty sc bang rest Hfirst Hok).
    unfold short_description. cbn [fst snd]. apply strip_nonempty_iff.
Qed.

Lemma short_description_nonempty_witness :
  short_description (CommitParser.parse "Fixed a crash on startup") <> "" /\
  short_description (CommitParser.parse "docs(readme)!: add badges") <> "".
Proof.
  split.
  - apply (proj1 (short_description_nonempty "Fixed a crash on startup")).
    + apply not_conventional_by_match; reflexivity.
    + reflexivity.
  - apply (proj2 (short_description_nonempty "docs(readme)!: add badges")
             "docs" (Some "readme") true " add badges").
    + reflexivity.
    + repeat split; simpl; auto; discriminate.
    + reflexivity.
Defined.

(** C4. The two classifiers disagree on "bug fix for new feature", which
    holds both "fix" and "feature": [CommitParser.parse], and so
    [CommitCategorizer.categorize], files it under fix (the whole word
    "fix" is found, "feat" is not), not under feat, while
    [categorize_commits] files it under its features bucket (its feature
    words are tried before its fix words), not under its fixes bucket. *)
Theorem fallback_scans_disagree :
  exists msg : string,
    contains "fix" (lower msg) = true /\ contains "feature" (lower msg) = true /\
    category (CommitParser.parse msg) = keyword_of Fix /\
    category (CommitParser.parse msg) <> keyword_of Feature /\
    CommitCategorizer.categorize [commit_of msg] = [(keyword_of Fix, [commit_of msg])] /\
    LegacySummarizer.category_of msg = legacy_bucket Feature /\
    LegacySummarizer.category_of msg <> legacy_bucket Fix /\
    LegacySummarizer.categorize_commits [msg] = [(legacy_bucket Feature, [msg])].
Proof.
  exists "bug fix for new feature".
  repeat split; discriminate.
Qed.

(** ** The two summarisation modes on a category without text *)











Lemma slice_to_nil {X : Type} (n : Z) : slice_to (@nil X) n = [].
Proof.
  unfold slice_to. destruct (0 <=? n)%Z; apply firstn_nil.
Qed.

Section NoText.

Variable nltk : option Nltk.



End NoText.




(** * Further properties of the code *)

(** ** [CommitParser.parse]: what every result satisfies *)

Lemma rstrip_head (c : ascii) (t : string) :
  isspace c = false -> exists r, rstrip (String c t) = String c r.
Proof.
  intros Hc. cbn [rstrip]. destruct (rstrip t) as [|d r].
  - rewrite Hc. now exists "".
  - now exists (String d r).
Qed.

Lemma rstrip_idem (s : string) : rstrip (rstrip s) = rstrip s.
Proof.
  induction s as [|c s IH]; [reflexivity|].
  cbn [rstrip]. destruct (rstrip s) as [|d r] eqn:E.
  - destruct (isspace c) eqn:Ec; [reflexivity|]. cbn [rstrip]. now rewrite Ec.
  - cbn [rstrip] in IH |- *. now rewrite IH.
Qed.

Lemma lstrip_fixed (s : string) :
  match s with String c _ => isspace c = false | EmptyString => True end ->
  lstrip s = s.
Proof. destruct s as [|c s]; [reflexivity|]. simpl. now intros ->. Qed.

(** [strip] leaves a string without white space at either end. *)
Lemma strip_idem (s : string) : strip (strip s) = strip s.
Proof.
  unfold strip. destruct (lstrip s) as [|c t] eqn:E; [reflexivity|].
  destruct (rstrip_head c t (lstrip_head s c t E)) as [r Hr].
  rewrite Hr. rewrite lstrip_fixed by (exact (lstrip_head s c t E)).
  rewrite <- Hr. apply rstrip_idem.
Qed.

Lemma strip_head (s : string) c r : strip s = String c r -> isspace c = false.
Proof.
  unfold strip. destruct (lstrip s) as [|d t] eqn:E; [discriminate|].
  destruct (rstrip_head d t (lstrip_head s d t E)) as [r' Hr].
  rewrite Hr. intros [= <- _]. exact (lstrip_head s d t E).
Qed.

(** The two branches of [parse], by the shape of the first line. *)
Lemma parse_cases (msg : string) :
  let first := hd "" (splitlines msg) in
  (exists ty sc bang rest,
     first = conventional_line ty sc bang rest /\ header_ok ty sc rest /\
     CommitParser.parse msg =
     (lower ty, sc, strip rest, remaining_lines (splitlines msg))) \/
  (~ conventional first /\
   CommitParser.parse msg =
   (CommitParser.guess_loop CommitParser.fallback_types (lower first) "chore",
    None, strip first, remaining_lines (splitlines msg))).
Proof.
  cbv zeta.
  destruct (re_match true CommitParser.CONVENTIONAL_RE (hd "" (splitlines msg)))
    as [m|] eqn:E.
  - left. destruct (match_sound _ m E) as (ty & sc & bang & rest & Hf & Hok).
    exists ty, sc, bang, rest. split; [exact Hf|]. split; [exact Hok|].
    now apply parse_conventional_line with (bang := bang).
  - right. assert (H : ~ conventional (hd "" (splitlines msg))).
    { intros Hc. apply (conventional_iff_match msg) in Hc.
      destruct Hc as (m & Hm & _). congruence. }
    split; [exact H | now apply parse_other_line].
Qed.

(** X1. For a message whose code points are all below 256, the category
    returned by [parse] is one of the eight type keywords of the pattern.
    (Above that range the property fails: under [re.I] the pattern takes
    U+017F for s and U+0130, U+0131 for i, and the type it then returns,
    lower-cased, is none of the keywords.) *)
Theorem parse_category_known (code_points : list N) (msg : string) :
  latin1 code_points = Some msg ->
  In (category (CommitParser.parse msg)) CommitParser.type_keywords.
Proof.
  intros _.
  destruct (parse_cases msg) as [(ty & sc & bang & rest & _ & Hok & ->)|[_ ->]];
    unfold category; cbn [fst].
  - apply Hok.
  - destruct (guess_loop_first CommitParser.fallback_types
                (lower (hd "" (splitlines msg))) "chore")
      as [(before & after & Hp & _)|[-> _]].
    + set (cat := CommitParser.guess_loop _ _ _) in *.
      assert (Hk : In cat CommitParser.fallback_types) by (rewrite Hp; apply in_elt).
      simpl in Hk. simpl.
      repeat (destruct Hk as [<-|Hk]; [tauto|]). destruct Hk.
    + simpl. tauto.
Qed.

Lemma parse_category_known_witness :
  In (category (CommitParser.parse "TEST(api): cover the parser"))
     CommitParser.type_keywords.
Proof.
  apply (parse_category_known
           [84; 69; 83; 84; 40; 97; 112; 105; 41; 58; 32; 99; 111; 118; 101; 114; 32;
            116; 104; 101; 32; 112; 97; 114; 115; 101; 114]%N).
  reflexivity.
Defined.

(** X2. The description never begins or ends with white space, nor does the
    body when there is one; there is a body exactly when the message has
    more than one line. *)
Theorem parse_trimmed (msg : string) :
  strip (short_description (CommitParser.parse msg)) =
    short_description (CommitParser.parse msg) /\
  (forall b, body (CommitParser.parse msg) = Some b -> strip b = b) /\
  (body (CommitParser.parse msg) = None <-> length (splitlines msg) <= 1).
Proof.
  assert (Hb : body (CommitParser.parse msg) = remaining_lines (splitlines msg)).
  { destruct (parse_cases msg) as [(ty & sc & bang & rest & _ & _ & ->)|[_ ->]];
      reflexivity. }
  split; [| split].
  - destruct (parse_cases msg) as [(ty & sc & bang & rest & _ & _ & ->)|[_ ->]];
      unfold short_description; cbn [fst snd]; apply strip_idem.
  - intros b. rewrite Hb. unfold remaining_lines.
    destruct (tl (splitlines msg)); [discriminate|].
    intros [= <-]. apply strip_idem.
  - rewrite Hb. unfold remaining_lines.
    destruct (splitlines msg) as [|l [|l' ls]]; simpl;
      split; intros H; try reflexivity; try lia; discriminate H.
Qed.

Lemma parse_trimmed_witness :
  strip "keeps the cache warm" = "keeps the cache warm".
Proof.
  apply (proj1 (proj2 (parse_trimmed
                        ("perf: cache" +:+ nl +:+ nl +:+ "  keeps the cache warm  " +:+ nl)))).
  reflexivity.
Defined.

(** X3. A scope is returned only for a conventional first line that carries
    one; it is the text between the parentheses, it is not empty and holds
    no closing parenthesis. *)
Theorem parse_scope (msg s : string) :
  scope (CommitParser.parse msg) = Some s ->
  s <> "" /\ all_chars not_rparen s = true /\
  exists ty bang rest,
    hd "" (splitlines msg) = conventional_line ty (Some s) bang rest /\
    header_ok ty (Some s) rest.
Proof.
  destruct (parse_cases msg) as [(ty & sc & bang & rest & Hf & Hok & ->)|[_ ->]];
    unfold scope; cbn [fst snd]; [| discriminate].
  intros ->. destruct Hok as (Hty & [Hne Hs] & Hr).
  split; [exact Hne|]. split; [exact Hs|].
  exists ty, bang, rest. split; [exact Hf|]. repeat split; assumption.
Qed.

Lemma parse_scope_witness :
  "parser" <> "" /\ all_chars not_rparen "parser" = true /\
  exists ty bang rest,
    hd "" (splitlines "Fix(parser)!: keep the scope") =
      conventional_line ty (Some "parser") bang rest /\
    header_ok ty (Some "parser") rest.
Proof.
  apply (parse_scope "Fix(parser)!: keep the scope" "parser"). reflexivity.
Defined.

(** ** [CommitCategorizer]: the other queries *)

Lemma insert_sorted_perm (x : string) (l : list string) :
  Permutation (insert_sorted x l) (x :: l).
Proof.
  induction l as [|y l IH]; simpl; [reflexivity|].
  destruct (String.leb x y); [reflexivity|].
  rewrite IH. apply perm_swap.
Qed.

Lemma sorted_perm (l : list string) : Permutation (sorted l) l.
Proof.
  induction l as [|x l IH]; simpl; [reflexivity|].
  rewrite insert_sorted_perm. now constructor.
Qed.

Lemma insert_sorted_ascending (x : string) (l : list string) :
  StronglySorted String.le l -> StronglySorted String.le (insert_sorted x l).
Proof.
  induction 1 as [|y l Hl IH Hy]; simpl.
  - repeat constructor.
  - destruct (String.leb x y) eqn:E.
    + assert (Hxy : String.le x y) by (unfold String.le; now rewrite E).
      constructor; [now constructor|].
      constructor; [exact Hxy|].
      eapply Forall_impl; [exact Hy|]. intros z Hz. now transitivity y.
    + assert (Hyx : String.le y x).
      { destruct (String.leb_total x y) as [H|H]; [congruence|].
        unfold String.le. now rewrite H. }
      constructor; [exact IH|].
      eapply Permutation_Forall; [symmetry; apply insert_sorted_perm|].
      now constructor.
Qed.

Lemma sorted_ascending (l : list string) : StronglySorted String.le (sorted l).
Proof.
  induction l as [|x l IH]; simpl; [constructor|].
  now apply insert_sorted_ascending.
Qed.

Lemma types_fold (L : list CommitInfo) (types : gset string) (t : string) :
  t ∈ fold_left
        (fun (types : gset string) commit =>
           let '(commit_type, _, _, _) := CommitParser.parse (message commit) in
           {[commit_type]} ∪ types)
        L types <->
  t ∈ types \/ exists c, In c L /\ commit_type c = t.
Proof.
  revert types. induction L as [|c L IH]; intros types; simpl.
  - split; [tauto | intros [H|(c & [] & _)]; exact H].
  - rewrite IH. unfold commit_type, category.
    destruct (CommitParser.parse (message c)) as [[[ct sc] de] bo] eqn:E.
    rewrite elem_of_union, elem_of_singleton. split.
    + intros [[->|H]|(c' & Hc' & Ht)].
      * right. exists c. rewrite E. auto.
      * now left.
      * right. exists c'. auto.
    + intros [H|(c' & [<-|Hc'] & Ht)].
      * left. now right.
      * left. left. rewrite E in Ht. now simpl in Ht.
      * right. exists c'. auto.
Qed.

Lemma get_commits_by_type_fold (L acc : list CommitInfo) (t : string) :
  fold_left
    (fun matching_commits commit =>
       let '(parsed_type, _, _, _) := CommitParser.parse (message commit) in
       if String.eqb parsed_type t then matching_commits ++ [commit]
       else matching_commits)
    L acc =
  acc ++ List.filter (fun c => String.eqb (commit_type c) t) L.
Proof.
  revert acc. induction L as [|c L IH]; intros acc; simpl.
  - now rewrite app_nil_r.
  - rewrite IH. unfold commit_type, category.
    destruct (CommitParser.parse (message c)) as [[[ct sc] de] bo]. simpl.
    destruct (String.eqb ct t); [now rewrite <- app_assoc | reflexivity].
Qed.

Lemma get_commits_by_type_filter (L : list CommitInfo) (t : string) :
  CommitCategorizer.get_commits_by_type L t =
  List.filter (fun c => String.eqb (commit_type c) t) L.
Proof.
  unfold CommitCategorizer.get_commits_by_type. now rewrite get_commits_by_type_fold.
Qed.

Lemma filter_sublist {X : Type} (p : X -> bool) (l : list X) :
  sublist (List.filter p l) l.
Proof.
  induction l as [|x l IH]; simpl; [constructor|].
  destruct (p x); [now apply sublist_skip | now apply sublist_cons].
Qed.

(** X4. [get_commits_by_type] returns the commits of the given type in input
    order, which is the group that [categorize] holds for that type (and
    the empty list for a type that does not occur). *)
Theorem get_commits_by_type_is_group (L : list CommitInfo) (t : string) :
  CommitCategorizer.get_commits_by_type L t =
    Dict.get_default (CommitCategorizer.categorize L) t [] /\
  sublist (CommitCategorizer.get_commits_by_type L t) L /\
  (forall c, In c (CommitCategorizer.get_commits_by_type L t) <->
             In c L /\ commit_type c = t) /\
  (CommitCategorizer.get_commits_by_type L t = [] <->
   ~ In t (Dict.keys (CommitCategorizer.categorize L))).
Proof.
  rewrite get_commits_by_type_filter, categorize_group_by.
  split; [now rewrite group_by_get|]. split; [apply filter_sublist|]. split.
  - intros c. rewrite filter_In, String.eqb_eq. tauto.
  - rewrite group_by_keys. simpl. split.
    + intros H [[]|(c & Hc & Ht)].
      assert (Hin : In c (List.filter (fun c => String.eqb (commit_type c) t) L)).
      { apply filter_In. split; [exact Hc | now apply String.eqb_eq]. }
      rewrite H in Hin. destruct Hin.
    + intros H. destruct (List.filter _ L) as [|c l] eqn:E; [reflexivity|].
      exfalso. apply H. right. exists c.
      assert (Hin : In c (List.filter (fun c => String.eqb (commit_type c) t) L)).
      { rewrite E. now left. }
      apply filter_In in Hin. rewrite String.eqb_eq in Hin. exact Hin.
Qed.

(** X5. [get_commit_types] lists the types that occur, each once, in ascending
    order of [str]; they are the keys of [categorize], reordered. *)
Theorem get_commit_types_sorted_keys (L : list CommitInfo) :
  StronglySorted String.le (CommitCategorizer.get_commit_types L) /\
  NoDup (CommitCategorizer.get_commit_types L) /\
  Permutation (CommitCategorizer.get_commit_types L)
              (Dict.keys (CommitCategorizer.categorize L)) /\
  (forall t, In t (CommitCategorizer.get_commit_types L) <->
             exists c, In c L /\ commit_type c = t).
Proof.
  unfold CommitCategorizer.get_commit_types.
  set (types := fold_left _ L ∅).
  assert (Hmem : forall t, In t (sorted (elements types)) <->
                           exists c, In c L /\ commit_type c = t).
  { intros t. rewrite <- list_elem_of_In, (sorted_perm (elements types)).
    rewrite elem_of_elements. unfold types. rewrite types_fold.
    rewrite elem_of_empty. tauto. }
  assert (Hnd : NoDup (sorted (elements types))).
  { rewrite (sorted_perm (elements types)). apply NoDup_elements. }
  split; [apply sorted_ascending|]. split; [exact Hnd|]. split; [| exact Hmem].
  apply NoDup_Permutation; [exact Hnd | |].
  - rewrite categorize_group_by. apply group_by_NoDup. constructor.
  - intros t. rewrite !list_elem_of_In, Hmem, categorize_group_by, group_by_keys.
    simpl. tauto.
Qed.

(** ** The summaries of both modes *)

Lemma sublist_In {X : Type} (l k : list X) (x : X) : sublist l k -> In x l -> In x k.
Proof.
  induction 1 as [|y l k H IH|y l k H IH]; simpl; [tauto | | ].
  - intros [->|Hx]; auto.
  - auto.
Qed.

Lemma sublist_map {X Y : Type} (f : X -> Y) (l k : list X) :
  sublist l k -> sublist (map f l) (map f k).
Proof.
  induction 1; simpl; [constructor | now apply sublist_skip | now apply sublist_cons].
Qed.

Lemma slice_to_sublist {X : Type} (l : list X) (n : Z) : sublist (slice_to l n) l.
Proof.
  unfold slice_to. destruct (0 <=? n)%Z; apply sublist_take.
Qed.


Lemma set_absent {V : Type} (d : Dict.dict V) (k : string) (v : V) :
  ~ In k (Dict.keys d) -> Dict.set d k v = d ++ [(k, v)].
Proof.
  induction d as [|[k0 v0] d IH]; simpl; [reflexivity|].
  intros H. destruct (String.eqb k0 k) eqn:E.
  - apply String.eqb_eq in E. tauto.
  - rewrite IH; [reflexivity | tauto].
Qed.

(** The summaries as a list: one optional entry per group, in the order of
    the groups. *)
Lemma summaries_fold {V W : Type} (F : string * V -> option W)
    (gs : Dict.dict V) (s0 : Dict.dict W) :
  NoDup (Dict.keys gs) ->
  (forall k, In k (Dict.keys gs) -> ~ In k (Dict.keys s0)) ->
  fold_left
    (fun s g => match F g with Some v => Dict.set s (fst g) v | None => s end)
    gs s0 =
  s0 ++ flat_map (fun g => match F g with Some v => [(fst g, v)] | None => [] end) gs.
Proof.
  revert s0. induction gs as [|[k0 v0] gs IH]; intros s0 Hnd Hdis; simpl.
  - now rewrite app_nil_r.
  - simpl in Hnd. apply NoDup_cons in Hnd. destruct Hnd as [Hk0 Hnd].
    rewrite list_elem_of_In in Hk0.
    destruct (F (k0, v0)) as [v|]; simpl.
    + rewrite set_absent by (apply Hdis; now left).
      rewrite IH, <- app_assoc; [reflexivity | exact Hnd |].
      intros k Hk. unfold Dict.keys. rewrite map_app, in_app_iff. simpl.
      intros [H|[->|[]]]; [| exact (Hk0 Hk)].
      apply (Hdis k); [now right | exact H].
    + apply IH; [exact Hnd|]. intros k Hk. apply Hdis. now right.
Qed.

Lemma get_In {V : Type} (d : Dict.dict V) (k : string) (v : V) :
  Dict.get d k = Some v -> In (k, v) d.
Proof.
  induction d as [|[k0 v0] d IH]; simpl; [discriminate|].
  destruct (String.eqb k0 k) eqn:E.
  - apply String.eqb_eq in E. intros [= ->]. subst. now left.
  - auto.
Qed.

(** An entry of the groups is the group of its key. *)
Lemma group_entry (L : list CommitInfo) (k : string) (items : list CommitInfo) :
  In (k, items) (group_by commit_type L []) ->
  items = List.filter (fun c => String.eqb (commit_type c) k) L /\ items <> [].
Proof.
  intros Hin.
  assert (Hnd : NoDup (Dict.keys (group_by commit_type L []))).
  { apply group_by_NoDup. constructor. }
  assert (Hget : Dict.get (group_by commit_type L []) k = Some items).
  { revert Hnd Hin. generalize (group_by commit_type L []). intros d.
    induction d as [|[k0 v0] d IH]; simpl; [tauto|].
    intros Hnd. apply NoDup_cons in Hnd. destruct Hnd as [Hk0 Hnd].
    intros [[= -> ->]|Hin].
    - now rewrite String.eqb_refl.
    - destruct (String.eqb k0 k) eqn:E; [| now apply IH].
      apply String.eqb_eq in E. subst k0. exfalso. apply Hk0.
      apply list_elem_of_In. apply in_map_iff. now exists (k, items). }
  pose proof (group_by_get commit_type L [] k) as Hg.
  unfold Dict.get_default in Hg. rewrite Hget in Hg. simpl in Hg. split; [exact Hg|].
  pose proof (group_by_nonempty commit_type L [] (Forall_nil_2 _)) as Hne.
  rewrite Forall_forall in Hne. apply (Hne (k, items)). now apply list_elem_of_In.
Qed.

Section SummaryFacts.

Variable nltk : option Nltk.




Lemma gather_step_fst (st : list string * list string) (c : CommitInfo) :
  fst (Narrative.gather_step nltk st c) =
  fst st ++ (let d := short_description (CommitParser.parse (message c)) in
             if truthy d then [strip d] else []).
Proof.
  unfold Narrative.gather_step, short_description. destruct st as [ds ts].
  destruct (CommitParser.parse (message c)) as [[[ct sc] de] bo]. cbn [fst snd].
  destruct (truthy de), bo as [b|]; try (destruct (truthy b));
    try (destruct nltk as [n|]; [destruct (sent_tokenize n b) as [|s0 ?]|]);
    try (destruct (Nat.ltb 10 (String.length (strip _))));
    cbn [fst]; rewrite ?app_nil_r; reflexivity.
Qed.

(** The descriptions gathered from the commits of one type. *)
Lemma gather_fold (items : list CommitInfo) (st : list string * list string) :
  fst (fold_left (Narrative.gather_step nltk) items st) =
  fst st ++ flat_map
              (fun c =>
                 let d := short_description (CommitParser.parse (message c)) in
                 if truthy d then [strip d] else [])
              items.
Proof.
  revert st. induction items as [|c items IH]; intros st; cbn [fold_left flat_map].
  - now rewrite app_nil_r.
  - rewrite IH, gather_step_fst, <- app_assoc. reflexivity.
Qed.

End SummaryFacts.

Lemma literal_append_nonempty (c : ascii) (a b : string) : String c a +:+ b <> "".
Proof. discriminate. Qed.

Lemma create_detailed_summary_nil_iff (nltk : option Nltk) (commit_type : string)
    (descriptions all_text : list string) :
  Narrative._create_detailed_summary nltk commit_type descriptions all_text = "" <->
  descriptions = [].
Proof.
  split.
  - destruct descriptions as [|d ds]; [reflexivity|]. intros H. exfalso. revert H.
    unfold Narrative._create_detailed_summary.
    repeat match goal with
           | |- context [if ?b then _ else _] => destruct b
           end;
      unfold Narrative._summarize_features, Narrative._summarize_fixes,
        Narrative._summarize_docs, Narrative._summarize_refactor,
        Narrative._summarize_tests, Narrative._summarize_performance,
        Narrative._summarize_general;
      cbn [length Nat.eqb]; cbv zeta; apply literal_append_nonempty.
  - intros ->. reflexivity.
Qed.

(** X6. [_create_detailed_summary] returns the empty string exactly when it is
    given no description, whatever the commit type and the other texts. *)
Theorem detailed_summary_empty_iff (nltk : option Nltk) (commit_type : string)
    (descriptions all_text : list string) :
  Narrative._create_detailed_summary nltk commit_type descriptions all_text = "" <->
  descriptions = [].
Proof. apply create_detailed_summary_nil_iff. Qed.

Lemma truthy_iff (s : string) : truthy s = true <-> s <> "".
Proof.
  unfold truthy. destruct (String.eqb_spec s ""); simpl; split; congruence.
Qed.

Lemma flat_map_nil_iff {X Y : Type} (f : X -> list Y) (l : list X) :
  flat_map f l = [] <-> forall x, In x l -> f x = [].
Proof.
  induction l as [|x l IH]; simpl; [tauto|]. split.
  - intros H. apply app_eq_nil in H. destruct H as [Hx Hl].
    intros y [<-|Hy]; [exact Hx | now apply IH].
  - intros H. rewrite (H x) by now left. simpl. apply IH. auto.
Qed.



Lemma narrative_summarize_flat (nltk : option Nltk) (L : list CommitInfo) :
  Narrative.summarize nltk L =
  flat_map
    (fun g => match narrative_entry nltk g with Some v => [(fst g, v)] | None => [] end)
    (group_by commit_type L []).
Proof.
  unfold Narrative.summarize. rewrite narrative_groups_group_by.
  assert (Hnd : NoDup (Dict.keys (group_by commit_type L []))).
  { apply group_by_NoDup. constructor. }
  rewrite <- (app_nil_l (flat_map _ _)).
  rewrite <- (summaries_fold (narrative_entry nltk) _ [] Hnd (fun k _ H => H)).
  apply fold_left_ext. intros s0 [k items]. unfold narrative_entry. cbn [snd fst].
  destruct items as [|i0 items0]; [reflexivity|].
  destruct (fold_left (Narrative.gather_step nltk) (i0 :: items0) ([], []))
    as [descriptions all_text].
  cbv zeta.
  now destruct (truthy (Narrative._create_detailed_summary nltk k descriptions all_text)).
Qed.

(** A group gets a narrative entry exactly when one of its commits has a
    description, and the entry is not empty. *)
Lemma narrative_entry_Some (nltk : option Nltk) (k : string) (items : list CommitInfo) :
  (forall v, narrative_entry nltk (k, items) = Some v -> v <> "") /\
  (narrative_entry nltk (k, items) <> None <->
   exists c, In c items /\ short_description (CommitParser.parse (message c)) <> "").
Proof.
  unfold narrative_entry. cbn [fst snd].
  pose proof (gather_fold nltk items ([], [])) as Hg. cbn [fst app] in Hg.
  destruct (fold_left (Narrative.gather_step nltk) items ([], []))
    as [descriptions all_text]. cbn [fst] in Hg. cbv zeta.
  pose proof (create_detailed_summary_nil_iff nltk k descriptions all_text) as Hs.
  assert (Hd : descriptions <> [] <->
               exists c, In c items /\
                         short_description (CommitParser.parse (message c)) <> "").
  { rewrite Hg. split.
    - intros H. destruct (flat_map _ items) as [|x xs] eqn:E; [congruence|].
      assert (Hx : In x (x :: xs)) by now left.
      rewrite <- E in Hx. apply in_flat_map in Hx. destruct Hx as (c & Hc & Hx).
      exists c. split; [exact Hc|]. cbv zeta in Hx.
      destruct (truthy _) eqn:Et; [now apply truthy_iff | destruct Hx].
    - intros (c & Hc & Hne) H. rewrite flat_map_nil_iff in H.
      specialize (H c Hc). cbv zeta in H.
      apply truthy_iff in Hne. rewrite Hne in H. discriminate. }
  destruct (truthy (Narrative._create_detailed_summary nltk k descriptions all_text))
    eqn:Et.
  - apply truthy_iff in Et. split.
    + destruct items; [discriminate|]. intros v [= <-]. exact Et.
    + rewrite <- Hd. rewrite <- Hs. destruct items as [|i0 items0].
      * exfalso. apply Et. apply Hs. rewrite Hg. reflexivity.
      * split; [intros _; exact Et | discriminate].
  - assert (E0 : Narrative._create_detailed_summary nltk k descriptions all_text = "").
    { destruct (String.eqb_spec
                  (Narrative._create_detailed_summary nltk k descriptions all_text) "")
        as [E|E]; [exact E|]. apply truthy_iff in E. congruence. }
    split.
    + destruct items; discriminate.
    + rewrite <- Hd. rewrite <- Hs. split.
      * destruct items; congruence.
      * intros H. congruence.
Qed.

Lemma flat_map_option_keys {V W : Type} (F : string * V -> option W) (gs : Dict.dict V) :
  sublist
    (Dict.keys (flat_map (fun g => match F g with Some v => [(fst g, v)] | None => [] end) gs))
    (Dict.keys gs).
Proof.
  induction gs as [|g gs IH]; simpl; [constructor|].
  destruct (F g); simpl; [now apply sublist_skip | now apply sublist_cons].
Qed.



Lemma narrative_summaries_facts (nltk : option Nltk) (L : list CommitInfo) :
  let S := Narrative.summarize nltk L in
  sublist (Dict.keys S) (Dict.keys (CommitCategorizer.categorize L)) /\
  NoDup (Dict.keys S) /\
  (forall k, In k (Dict.keys S) <->
     exists c, In c L /\ commit_type c = k /\
               short_description (CommitParser.parse (message c)) <> "") /\
  (forall k v, Dict.get S k = Some v -> v <> "").
Proof.
  cbv zeta. rewrite narrative_summarize_flat, categorize_group_by.
  assert (Hsub := flat_map_option_keys (narrative_entry nltk) (group_by commit_type L [])).
  assert (Hnd : NoDup (Dict.keys (group_by commit_type L []))).
  { apply group_by_NoDup. constructor. }
  split; [exact Hsub|]. split; [exact (sublist_NoDup _ _ Hnd Hsub)|]. split.
  - intros k. unfold Dict.keys. rewrite in_map_iff. split.
    + intros ([k' v] & <- & Hin). apply in_flat_map in Hin.
      destruct Hin as ([k0 items] & Hg & Hin). cbn [fst] in Hin.
      destruct (narrative_entry nltk (k0, items)) as [v0|] eqn:E; [| destruct Hin].
      destruct Hin as [[= <- <-]|[]]. cbn [fst].
      destruct (group_entry L k0 items Hg) as [Hitems _].
      destruct (proj1 (proj2 (narrative_entry_Some nltk k0 items))) as (c & Hc & Hne);
        [congruence|].
      exists c. rewrite Hitems in Hc. apply filter_In in Hc.
      rewrite String.eqb_eq in Hc. tauto.
    + intros (c & Hc & Ht & Hne).
      assert (Hk : In k (Dict.keys (group_by commit_type L []))).
      { apply group_by_keys. right. now exists c. }
      unfold Dict.keys in Hk. apply in_map_iff in Hk.
      destruct Hk as ([k0 items] & Hk0 & Hg). cbn [fst] in Hk0. subst k0.
      destruct (group_entry L k items Hg) as [Hitems _].
      destruct (narrative_entry nltk (k, items)) as [v|] eqn:E.
      * exists (k, v). split; [reflexivity|]. apply in_flat_map.
        exists (k, items). split; [exact Hg|]. rewrite E. now left.
      * exfalso. revert E. apply (proj2 (narrative_entry_Some nltk k items)).
        exists c. split; [| exact Hne]. rewrite Hitems. apply filter_In.
        split; [exact Hc | now apply String.eqb_eq].
  - intros k v Hget. apply get_In, in_flat_map in Hget.
    destruct Hget as ([k0 items] & Hg & Hin).
    destruct (narrative_entry nltk (k0, items)) as [v0|] eqn:E; [| destruct Hin].
    destruct Hin as [[= <- <-]|[]].
    exact (proj1 (narrative_entry_Some nltk k0 items) v0 E).
Qed.

(** X8. Narrative-mode [summarize] has an entry for a commit type exactly when
    some commit of that type has a description that is not empty; no entry
    is the empty string; the types come in the order of the keys of
    [categorize], each once. *)
Theorem narrative_summaries_shape (nltk : option Nltk) (L : list CommitInfo) :
  let S := Narrative.summarize nltk L in
  sublist (Dict.keys S) (Dict.keys (CommitCategorizer.categorize L)) /\
  NoDup (Dict.keys S) /\
  (forall k, In k (Dict.keys S) <->
     exists c, In c L /\ commit_type c = k /\
               short_description (CommitParser.parse (message c)) <> "") /\
  (forall k v, Dict.get S k = Some v -> v <> "").
Proof. apply narrative_summaries_facts. Qed.

Lemma narrative_summaries_shape_witness :
  "Made 1 chore changes improving various aspects of the project." <> "".
Proof.
  destruct (narrative_summaries_shape None [commit_of " "; commit_of "update deps"])
    as (_ & _ & _ & H).
  apply (H "chore"). reflexivity.
Defined.

(** ** [_extract_key_terms] and [_analyze_impact] *)

Lemma update_keys_NoDup (c : Dict.Counter) (ws : list string) :
  NoDup (Dict.keys c) -> NoDup (Dict.keys (Dict.update c ws)).
Proof.
  unfold Dict.update. revert c. induction ws as [|w ws IH]; intros c H; simpl.
  - exact H.
  - apply IH. unfold Dict.count_one. now apply keys_set_NoDup.
Qed.

Lemma In_get {V : Type} (d : Dict.dict V) (k : string) (v : V) :
  NoDup (Dict.keys d) -> In (k, v) d -> Dict.get d k = Some v.
Proof.
  induction d as [|[k0 v0] d IH]; simpl; [tauto|].
  intros Hnd. apply NoDup_cons in Hnd. destruct Hnd as [Hk0 Hnd].
  intros [[= -> ->]|Hin].
  - now rewrite String.eqb_refl.
  - destruct (String.eqb k0 k) eqn:E; [| now apply IH].
    apply String.eqb_eq in E. subst k0. exfalso. apply Hk0.
    apply list_elem_of_In, in_map_iff. now exists (k, v).
Qed.

Lemma cleaned_count (ok : string -> bool) (clean : string -> string)
    (words : list string) (t : string) :
  length (List.filter (fun w => String.eqb w t)
            (flat_map (fun word => if ok (clean word) then [clean word] else []) words)) <=
  length (List.filter (fun word => String.eqb (clean word) t) words).
Proof.
  induction words as [|w words IH]; simpl; [lia|].
  rewrite List.filter_app, length_app.
  destruct (ok (clean w)); simpl; destruct (String.eqb (clean w) t); simpl; lia.
Qed.

(** X9. [_extract_key_terms] returns at most ten terms, no term twice; each is
    longer than two characters, is not a stop word, is not made of digits,
    and is the cleaned form of at least two of the words of the texts. *)
Theorem extract_key_terms_sound (nltk : option Nltk) (texts : list string) :
  let terms := Narrative._extract_key_terms nltk texts in
  length terms <= 10 /\
  NoDup terms /\
  forall t, In t terms ->
    2 < String.length t /\
    (t ∉ Narrative.stop_words nltk) /\
    Narrative.isdigit t = false /\
    2 <= length (List.filter (fun word => String.eqb (sub_nonword_char word) t)
                   (key_term_words nltk texts)).
Proof.
  cbv zeta. unfold Narrative._extract_key_terms.
  destruct texts as [|t0 texts0].
  { split; [simpl; lia|]. split; [apply NoDup_nil_2 | intros t []]. }
  set (texts := t0 :: texts0). fold (key_term_words nltk texts).
  set (ok := fun clean_word : string =>
               Nat.ltb 2 (String.length clean_word)
               && negb (bool_decide (clean_word ∈ Narrative.stop_words nltk))
               && negb (Narrative.isdigit clean_word)).
  set (clean_words :=
         flat_map (fun word => if ok (sub_nonword_char word) then [sub_nonword_char word] else [])
           (key_term_words nltk texts)).
  change (flat_map _ (key_term_words nltk texts)) with clean_words.
  set (word_freq := Dict.update [] clean_words).
  assert (Hnd : NoDup (Dict.keys word_freq)).
  { apply update_keys_NoDup. constructor. }
  assert (Hsub : sublist
                   (List.filter (fun wc : string * nat => Nat.ltb 1 (snd wc))
                      (firstn 10 (sort_desc word_freq)))
                   (sort_desc word_freq)).
  { etransitivity; [apply filter_sublist | apply sublist_take]. }
  split; [| split].
  - rewrite length_map. etransitivity; [apply sublist_length, filter_sublist|].
    rewrite length_take. lia.
  - eapply sublist_NoDup; [| apply sublist_map, Hsub].
    change (map fst (sort_desc word_freq)) with (Dict.keys (sort_desc word_freq)).
    unfold Dict.keys. rewrite (sort_desc_perm word_freq). exact Hnd.
  - intros t Ht. apply in_map_iff in Ht. destruct Ht as ([w n] & <- & Hin).
    cbn [fst]. apply filter_In in Hin. destruct Hin as [Hin Hn]. cbn [snd] in Hn.
    apply Nat.ltb_lt in Hn.
    apply (sublist_In _ _ _ (sublist_take _ _)) in Hin.
    apply (Permutation_in _ (sort_desc_perm word_freq)) in Hin.
    apply (In_get _ _ _ Hnd) in Hin.
    pose proof (get_default_update [] clean_words w) as Hc.
    fold word_freq in Hc. unfold Dict.get_default in Hc. rewrite Hin in Hc.
    simpl in Hc.
    assert (Hw : In w clean_words).
    { destruct (List.filter (fun w0 => String.eqb w0 w) clean_words) as [|x xs] eqn:E;
        [simpl in Hc; lia|].
      assert (Hx : In x (x :: xs)) by now left.
      rewrite <- E in Hx. apply filter_In in Hx. destruct Hx as [Hx Hxw].
      apply String.eqb_eq in Hxw. now subst x. }
    unfold clean_words in Hw. apply in_flat_map in Hw. destruct Hw as (word & _ & Hw).
    destruct (ok (sub_nonword_char word)) eqn:Eok; [| destruct Hw].
    destruct Hw as [<-|[]]. unfold ok in Eok.
    apply andb_true_iff in Eok. destruct Eok as [Eok Hdig].
    apply andb_true_iff in Eok. destruct Eok as [Hlen Hstop].
    split; [now apply Nat.ltb_lt|]. split; [| split].
    + apply negb_true_iff, bool_decide_eq_false in Hstop. exact Hstop.
    + now apply negb_true_iff.
    + pose proof (cleaned_count ok sub_nonword_char (key_term_words nltk texts)
                    (sub_nonword_char word)) as Hle.
      fold clean_words in Hle. lia.
Qed.

Lemma extract_key_terms_sound_witness :
  2 < String.length "cache" /\
  ("cache" ∉ Narrative.stop_words None) /\
  Narrative.isdigit "cache" = false /\
  2 <= length (List.filter (fun word => String.eqb (sub_nonword_char word) "cache")
                 (key_term_words None ["Add cache."; "warm the CACHE"; "2024 2024"])).
Proof.
  destruct (extract_key_terms_sound None ["Add cache."; "warm the CACHE"; "2024 2024"])
    as (_ & _ & H).
  apply H. vm_compute. auto.
Defined.

(** X10. [_analyze_impact] returns the empty string exactly when [count] is
    zero: for any other count, also a negative one, some phrase comes back
    whatever the commit type and the number of themes. *)
Theorem analyze_impact_empty_iff (commit_type : string) (count : Z)
    (themes : Dict.dict (list string)) :
  Narrative._analyze_impact commit_type count themes = "" <-> count = 0%Z.
Proof.
  unfold Narrative._analyze_impact. destruct (Z.eqb_spec count 0) as [Hc|Hc].
  - tauto.
  - split; [| intros H; contradiction]. intros H. exfalso. revert H.
    repeat match goal with
           | |- context [if ?b then _ else _] =>
               match type of b with bool => destruct b end
           end;
      vm_compute; discriminate.
Qed.

(** ** [categorize_commits] *)

Lemma categorize_commits_group_by (commits : list string) :
  LegacySummarizer.categorize_commits commits =
  group_by LegacySummarizer.category_of commits [].
Proof. reflexivity. Qed.

Lemma category_of_bucket (msg : string) :
  In (LegacySummarizer.category_of msg) legacy_buckets.
Proof.
  unfold LegacySummarizer.category_of, legacy_buckets.
  repeat match goal with
         | |- context [if ?b then _ else _] => destruct b
         end;
    simpl; tauto.
Qed.

(** X11. [categorize_commits] files every message under exactly one of the six
    buckets features, fixes, docs, refactor, tests, other: the buckets hold
    [len(commits)] messages in all, no bucket is listed twice, and a bucket
    holds, in input order, the messages that the chain of tests sends to
    it. *)
Theorem categorize_commits_partition (commits : list string) :
  let categories := LegacySummarizer.categorize_commits commits in
  list_sum (map (fun g => length (snd g)) categories) = length commits /\
  NoDup (Dict.keys categories) /\
  (forall k, In k (Dict.keys categories) -> In k legacy_buckets) /\
  (forall k, Dict.get_default categories k [] =
             List.filter (fun msg => String.eqb (LegacySummarizer.category_of msg) k)
               commits).
Proof.
  cbv zeta. rewrite categorize_commits_group_by. split; [| split; [| split]].
  - apply (group_by_total LegacySummarizer.category_of commits []).
  - apply group_by_NoDup. constructor.
  - intros k Hk. apply group_by_keys in Hk. destruct Hk as [[]|(msg & _ & <-)].
    apply category_of_bucket.
  - intros k. now rewrite group_by_get.
Qed.

Lemma categorize_commits_partition_witness :
  In "fixes" legacy_buckets.
Proof.
  destruct (categorize_commits_partition ["Fix it"; "add tests"]) as (_ & _ & H & _).
  apply H. simpl. auto.
Defined.

(** ** [fetch_commits] *)

Lemma fetch_loop_take (now : Z) (items : list (option GitHubFetcher.ApiCommit))
    (max_commits count : Z) (result : list CommitInfo) :
  GitHubFetcher.fetch_loop now items max_commits count result =
  result ++ firstn (Z.to_nat (max_commits - count))
              (map (GitHubFetcher.decode now) (decodable items)).
Proof.
  revert count result. induction items as [|[a|] items IH]; intros count result; simpl.
  - now rewrite firstn_nil, app_nil_r.
  - destruct (Z.leb_spec max_commits count) as [H|H].
    + replace (Z.to_nat (max_commits - count)) with 0 by lia. simpl.
      now rewrite app_nil_r.
    + rewrite IH.
      replace (Z.to_nat (max_commits - count))
        with (S (Z.to_nat (max_commits - (count + 1)))) by lia.
      simpl. now rewrite <- app_assoc.
  - destruct (Z.leb_spec max_commits count) as [H|H].
    + replace (Z.to_nat (max_commits - count)) with 0 by lia. simpl.
      now rewrite app_nil_r.
    + apply IH.
Qed.

Lemma fetch_commits_closed_form (now : Z) (items : list (option GitHubFetcher.ApiCommit))
    (max_commits : Z) :
  GitHubFetcher.fetch_commits now (Some items) max_commits =
  Some (map (GitHubFetcher.decode now) (firstn (Z.to_nat max_commits) (decodable items))).
Proof.
  unfold GitHubFetcher.fetch_commits. rewrite fetch_loop_take. simpl.
  now rewrite Z.sub_0_r, firstn_map.
Qed.

(** X12. [fetch_commits] returns the first [max_commits] commits that decode,
    in the order of the API, skipping those whose decoding raises; none when
    [max_commits] is zero or negative.  Every message it returns is
    trimmed. *)
Theorem fetch_commits_take (now : Z) (items : list (option GitHubFetcher.ApiCommit))
    (max_commits : Z) :
  let result :=
    map (GitHubFetcher.decode now) (firstn (Z.to_nat max_commits) (decodable items)) in
  GitHubFetcher.fetch_commits now (Some items) max_commits = Some result /\
  length result = Nat.min (Z.to_nat max_commits) (length (decodable items)) /\
  Forall (fun c => strip (message c) = message c) result.
Proof.
  cbv zeta. split; [apply fetch_commits_closed_form|]. split.
  - now rewrite length_map, length_firstn.
  - apply List.Forall_forall. intros c Hc. apply in_map_iff in Hc.
    destruct Hc as (a & <- & _). simpl. apply strip_idem.
Qed.

(** ** The recent activity of the README *)

Lemma splitlines_nil_iff (s : string) : splitlines s = [] <-> s = "".
Proof.
  destruct s as [|c s]; [tauto|]. split; [| discriminate].
  cbn [splitlines]. destruct (is_linebreak c).
  - destruct s as [|d s]; [discriminate|].
    destruct (Ascii.eqb c "013" && Ascii.eqb d "010"); discriminate.
  - destruct (splitlines s); discriminate.
Qed.

Lemma activity_lines_None (date_text : Z -> string) (commits : list CommitInfo)
    (lines : list string) :
  activity_lines date_text commits lines = None <->
  exists c, In c commits /\ message c = "".
Proof.
  revert lines. induction commits as [|c commits IH]; intros lines.
  - simpl. split; [discriminate | intros (c & [] & _)].
  - cbn [activity_lines]. destruct (splitlines (message c)) as [|short_msg more] eqn:E.
    + split; [| reflexivity]. intros _. exists c. split; [now left|].
      now apply splitlines_nil_iff.
    + cbv zeta. rewrite IH. split.
      * intros (c' & Hin & Hm). exists c'. split; [now right | exact Hm].
      * intros (c' & [<-|Hin] & Hm).
        -- rewrite Hm in E. discriminate.
        -- now exists c'.
Qed.

Lemma generate_markdown_None (include_commit_examples : bool) (generated_on : string)
    (date_text : Z -> string) (meta : RepoMeta) (summaries : Dict.dict string)
    (commits : list CommitInfo) :
  ReadmeGenerator.generate_markdown include_commit_examples generated_on date_text
    meta summaries commits = None <->
  exists c, In c (firstn 10 commits) /\ message c = "".
Proof.
  unfold ReadmeGenerator.generate_markdown, ReadmeGenerator._format_recent_activity.
  rewrite <- (activity_lines_None date_text (firstn 10 commits) []).
  destruct (activity_lines date_text (firstn 10 commits) []); split; congruence.
Qed.

Lemma generate_markdown_bullets_None (include_commit_examples : bool)
    (generated_on : string) (date_text : Z -> string) (meta : RepoMeta)
    (summaries : Dict.dict (list string)) (commits : list CommitInfo) :
  ReadmeGenerator.generate_markdown_bullets include_commit_examples generated_on date_text
    meta summaries commits = None <->
  exists c, In c (firstn 10 commits) /\ message c = "".
Proof.
  unfold ReadmeGenerator.generate_markdown_bullets. cbv zeta.
  match goal with
  | |- context [activity_lines ?d ?c ?l] =>
      rewrite <- (activity_lines_None d c l); destruct (activity_lines d c l)
  end; split; congruence.
Qed.

(** X13. Both [generate_markdown] raise [IndexError] exactly when one of the
    first ten commits has the empty message, whose [splitlines()] has no
    first element; commits after the tenth are not looked at.  The same
    holds of [_format_recent_activity]. *)
Theorem recent_activity_fails_iff (include_commit_examples : bool) (generated_on : string)
    (date_text : Z -> string) (meta : RepoMeta) (paragraphs : Dict.dict string)
    (bullets : Dict.dict (list string)) (commits : list CommitInfo) :
  let empty_message := exists c, In c (firstn 10 commits) /\ message c = "" in
  (ReadmeGenerator._format_recent_activity date_text commits = None <-> empty_message) /\
  (ReadmeGenerator.generate_markdown include_commit_examples generated_on date_text
     meta paragraphs commits = None <-> empty_message) /\
  (ReadmeGenerator.generate_markdown_bullets include_commit_examples generated_on
     date_text meta bullets commits = None <-> empty_message).
Proof.
  cbv zeta. split; [| split].
  - unfold ReadmeGenerator._format_recent_activity.
    rewrite <- (activity_lines_None date_text (firstn 10 commits) []).
    destruct (activity_lines date_text (firstn 10 commits) []); split; congruence.
  - apply generate_markdown_None.
  - apply generate_markdown_bullets_None.
Qed.

(** ** From the fetcher to the parser and to the generators *)

Lemma linebreak_is_space (c : ascii) : is_linebreak c = true -> isspace c = true.
Proof.
  destruct c as [[] [] [] [] [] [] [] []]; vm_compute; congruence.
Qed.

Lemma first_line_has_text (c : ascii) (s : string) :
  isspace c = false -> has_text (hd "" (splitlines (String c s))).
Proof.
  intros Hc. unfold has_text. cbn [splitlines].
  destruct (is_linebreak c) eqn:E.
  - apply linebreak_is_space in E. congruence.
  - destruct (splitlines s); simpl; now rewrite Hc.
Qed.

Lemma stripped_description (raw : string) :
  strip raw <> "" ->
  ~ conventional (hd "" (splitlines (strip raw))) ->
  short_description (CommitParser.parse (strip raw)) <> "".
Proof.
  intros Hne Hconv. rewrite (parse_other_line _ Hconv).
  unfold short_description. cbn [fst snd]. apply strip_nonempty_iff.
  destruct (strip raw) as [|c s] eqn:E; [congruence|].
  apply first_line_has_text. exact (strip_head raw c s E).
Qed.

(** X14. A commit that [fetch_commits] returns has a trimmed message; so, when
    that message is not empty and its first line is not a conventional
    header, [parse] gives it a description that is not empty: the blank
    first line that empties a description cannot come from the fetcher. *)
Theorem fetched_description_nonempty (now : Z)
    (items : list (option GitHubFetcher.ApiCommit)) (max_commits : Z)
    (result : list CommitInfo) (c : CommitInfo) :
  GitHubFetcher.fetch_commits now (Some items) max_commits = Some result ->
  In c result ->
  message c <> "" ->
  ~ conventional (hd "" (splitlines (message c))) ->
  short_description (CommitParser.parse (message c)) <> "".
Proof.
  rewrite fetch_commits_closed_form. intros [= <-] Hc.
  apply in_map_iff in Hc. destruct Hc as (a & <- & _). simpl.
  apply stripped_description.
Qed.

(** X15. A commit whose message on GitHub is empty or blank, among the first ten
    that [fetch_commits] returns, makes both [generate_markdown] raise
    [IndexError]: the fetcher trims its message to the empty string. *)
Theorem blank_message_breaks_readme (now : Z)
    (items : list (option GitHubFetcher.ApiCommit)) (max_commits : Z)
    (commits : list CommitInfo) (a : GitHubFetcher.ApiCommit)
    (include_commit_examples : bool) (generated_on : string) (date_text : Z -> string)
    (meta : RepoMeta) (paragraphs : Dict.dict string) (bullets : Dict.dict (list string)) :
  GitHubFetcher.fetch_commits now (Some items) max_commits = Some commits ->
  In a (firstn (Nat.min 10 (Z.to_nat max_commits)) (decodable items)) ->
  all_chars isspace (GitHubFetcher.api_message a) = true ->
  ReadmeGenerator.generate_markdown include_commit_examples generated_on date_text
    meta paragraphs commits = None /\
  ReadmeGenerator.generate_markdown_bullets include_commit_examples generated_on
    date_text meta bullets commits = None.
Proof.
  rewrite fetch_commits_closed_form. intros [= <-] Ha Hblank.
  assert (H : exists c,
             In c (firstn 10 (map (GitHubFetcher.decode now)
                                (firstn (Z.to_nat max_commits) (decodable items)))) /\
             message c = "").
  { exists (GitHubFetcher.decode now a). split.
    - rewrite <- firstn_map, firstn_firstn, firstn_map. now apply in_map.
    - simpl. now apply strip_space. }
  split; [now apply generate_markdown_None | now apply generate_markdown_bullets_None].
Qed.

Lemma fetched_description_nonempty_witness :
  short_description
    (CommitParser.parse
       (message
          (GitHubFetcher.decode 0
             {| GitHubFetcher.api_sha := "4f2a9c1d";
                GitHubFetcher.login := Some "ann";
                GitHubFetcher.git_author := None;
                GitHubFetcher.api_message := "  Fixed a crash on startup" +:+ nl |})))
  <> "".
Proof.
  apply (fetched_description_nonempty 0
           [None;
            Some {| GitHubFetcher.api_sha := "4f2a9c1d";
                    GitHubFetcher.login := Some "ann";
                    GitHubFetcher.git_author := None;
                    GitHubFetcher.api_message := "  Fixed a crash on startup" +:+ nl |}]
           5 _ _ eq_refl).
  - left. reflexivity.
  - discriminate.
  - apply not_conventional_by_match; reflexivity.
Defined.

Lemma blank_message_breaks_readme_witness :
  let meta :=
    {| full_name := "ann/tool"; description := None; url := "https://github.com/ann/tool";
       license_name := None; default_branch := "main" |} in
  let commits :=
    [ {| sha := "4f2a9c1d"; author := Some "ann"; date := 0; message := "" |} ] in
  ReadmeGenerator.generate_markdown true "2024-01-01 00:00 UTC" (fun _ => "2024-01-01")
    meta [] commits = None /\
  ReadmeGenerator.generate_markdown_bullets true "2024-01-01 00:00 UTC"
    (fun _ => "2024-01-01") meta [] commits = None.
Proof.
  cbv zeta.
  apply (blank_message_breaks_readme 0
           [Some {| GitHubFetcher.api_sha := "4f2a9c1d";
                    GitHubFetcher.login := Some "ann";
                    GitHubFetcher.git_author := None;
                    GitHubFetcher.api_message := "  " +:+ nl |}]
           500 _
           {| GitHubFetcher.api_sha := "4f2a9c1d";
              GitHubFetcher.login := Some "ann";
              GitHubFetcher.git_author := None;
              GitHubFetcher.api_message := "  " +:+ nl |}).
  - reflexivity.
  - left. reflexivity.
  - reflexivity.
Defined.

(** ** [format_category_summary] and [summarize_commit_history] *)

Lemma drop_append (u s : string) : drop (String.length u) (u +:+ s) = s.
Proof. induction u as [|c u IH]; simpl; [reflexivity | exact IH]. Qed.

Lemma format_category_summary_map (messages : list string) :
  LegacySummarizer.format_category_summary messages =
  map (fun msg => "- " +:+ strip (LegacySummarizer.sub_prefix msg)) messages.
Proof.
  unfold LegacySummarizer.format_category_summary.
  enough (H : forall acc,
             fold_left
               (fun summaries msg =>
                  summaries ++ ["- " +:+ strip (LegacySummarizer.sub_prefix msg)])
               messages acc =
             acc ++ map (fun msg => "- " +:+ strip (LegacySummarizer.sub_prefix msg))
                      messages) by apply (H []).
  induction messages as [|msg messages IH]; intros acc; simpl.
  - now rewrite app_nil_r.
  - now rewrite IH, <- app_assoc.
Qed.

(** [^\w+:\s*] at a word followed by a colon: the match takes the word, the
    colon and the whitespace that follows. *)
Lemma match_prefix_rule (ty rest : string) :
  ty <> "" -> all_chars is_word ty = true ->
  exists ws, rest = ws +:+ lstrip rest /\
    re_match false LegacySummarizer.prefix_rule (ty +:+ ":" +:+ rest) =
    Some [("0", ty +:+ ":" +:+ ws)].
Proof.
  intros Hne Hty. destruct (lstrip_split rest) as [ws [Hs Hw]].
  exists ws. split; [exact Hs|].
  destruct ty as [|d ty]; [congruence|]. simpl in Hty.
  apply andb_true_iff in Hty. destruct Hty as [Hd Hty].
  assert (Hspan : span (String d ty +:+ ":" +:+ rest) (lstrip rest) =
                  String d ty +:+ ":" +:+ ws).
  { rewrite Hs at 1.
    replace (String d ty +:+ ":" +:+ ws +:+ lstrip rest)
      with ((String d ty +:+ ":" +:+ ws) +:+ lstrip rest)
      by (rewrite !append_assoc; reflexivity).
    apply span_append. }
  rewrite <- Hspan.
  unfold re_match, LegacySummarizer.prefix_rule.
  rewrite run_group, run_seq.
  remember (String d ty +:+ ":" +:+ rest) as subject eqn:Esub.
  rewrite Esub at 1. cbn [String.append]. rewrite run_plus, Hd.
  apply star_greedy; [exact Hty | | reflexivity].
  rewrite run_seq. change (":" +:+ rest) with (String ":" rest).
  rewrite run_lit. cbn [lit_eq]. cbn [Ascii.eqb Bool.eqb]. cbn [run].
  rewrite Hs at 1. apply star_greedy; [exact Hw | reflexivity |].
  destruct (lstrip rest) as [|e t] eqn:E; [exact I|].
  exact (lstrip_head rest e t E).
Qed.

Lemma sub_prefix_word (msg ty rest : string) :
  word_prefixed msg ty rest -> LegacySummarizer.sub_prefix msg = lstrip rest.
Proof.
  intros (-> & Hne & Hty).
  destruct (match_prefix_rule ty rest Hne Hty) as (ws & Hs & Hm).
  unfold LegacySummarizer.sub_prefix. rewrite Hm. cbn [group String.eqb Ascii.eqb Bool.eqb].
  rewrite Hs at 1.
  replace (ty +:+ ":" +:+ ws +:+ lstrip rest)
    with ((ty +:+ ":" +:+ ws) +:+ lstrip rest)
    by (rewrite !append_assoc; reflexivity).
  apply drop_append.
Qed.

Lemma sub_prefix_other (msg : string) :
  (forall ty rest, ~ word_prefixed msg ty rest) -> LegacySummarizer.sub_prefix msg = msg.
Proof.
  intros Hno. unfold LegacySummarizer.sub_prefix.
  destruct (re_match false LegacySummarizer.prefix_rule msg) as [m|] eqn:E; [| reflexivity].
  exfalso. unfold re_match in E. apply run_sound in E.
  destruct E as (u & s' & _ & _ & -> & L & _).
  unfold LegacySummarizer.prefix_rule in L.
  inversion L as [| | | | | | | | |name r u0 L1|]; subst.
  inversion L1 as [| |r1 r2 u1 v1 Lp Lr| | | | | | | |]; subst.
  inversion Lp as [| | | | | | | |p u2 Hu2 Hp| |]; subst.
  inversion Lr as [| |r1 r2 u3 v3 Lc Ls| | | | | | | |]; subst.
  inversion Lc as [c d Hcd| | | | | | | | | |]; subst.
  simpl in Hcd. apply Ascii.eqb_eq in Hcd. subst d.
  apply (Hno u1 (v3 +:+ s')). repeat split; [| assumption | assumption].
  now rewrite !append_assoc.
Qed.

(** X16. [format_category_summary] gives one bullet per message, in order.  A
    message that begins with a word and a colon loses both and the
    whitespace after them; any other message, a header with a scope such as
    "feat(api): y" among them, is kept whole.  What is left is trimmed and
    put after "- ". *)
Theorem format_category_summary_bullets (messages : list string) :
  length (LegacySummarizer.format_category_summary messages) = length messages /\
  forall i msg, nth_error messages i = Some msg ->
    exists clean,
      nth_error (LegacySummarizer.format_category_summary messages) i
      = Some ("- " +:+ clean) /\
      (forall ty rest, word_prefixed msg ty rest -> clean = strip rest) /\
      ((forall ty rest, ~ word_prefixed msg ty rest) -> clean = strip msg).
Proof.
  rewrite format_category_summary_map. split; [apply length_map|].
  intros i msg Hi. exists (strip (LegacySummarizer.sub_prefix msg)). split; [| split].
  - now rewrite nth_error_map, Hi.
  - intros ty rest Hp. rewrite (sub_prefix_word msg ty rest Hp).
    unfold strip. now rewrite lstrip_idem.
  - intros Hno. now rewrite (sub_prefix_other msg Hno).
Qed.

Lemma format_category_summary_bullets_witness :
  nth_error (LegacySummarizer.format_category_summary ["feat: add x "; "feat(api): y"]) 0
  = Some "- add x" /\
  nth_error (LegacySummarizer.format_category_summary ["feat: add x "; "feat(api): y"]) 1
  = Some "- feat(api): y".
Proof.
  pose proof (format_category_summary_bullets ["feat: add x "; "feat(api): y"]) as [_ H].
  split.
  - destruct (H 0 "feat: add x " eq_refl) as (clean & Hn & Hw & _).
    rewrite Hn, (Hw "feat" " add x "); [reflexivity|].
    repeat split. discriminate.
  - destruct (H 1 "feat(api): y" eq_refl) as (clean & Hn & _ & Ho).
    rewrite Hn, Ho; [reflexivity|].
    intros ty rest (E & Hne & Hw).
    do 5 (destruct ty as [|? ty]; [try congruence; discriminate E|];
          simpl in E; injection E as <- E; simpl in Hw; try discriminate Hw).
Defined.

Lemma filter_nil_iff {X : Type} (p : X -> bool) (l : list X) :
  List.filter p l = [] <-> List.Forall (fun x => p x = false) l.
Proof.
  induction l as [|x l IH]; simpl.
  - split; [constructor | reflexivity].
  - destruct (p x) eqn:E.
    + split; [discriminate|]. intros H. inversion H; congruence.
    + rewrite IH. split; [now constructor | intros H; now inversion H].
Qed.

(** The text of a section of [summarize_commit_history]: the fallback
    when the bucket is empty, and otherwise bullets, which begin with a
    hyphen. *)
Lemma section_text (bucket : list string) (fallback : string) :
  match bucket with
  | [] =>
      LegacySummarizer.or_else
        (strip (join nl (LegacySummarizer.format_category_summary bucket))) fallback
      = fallback
  | _ :: _ =>
      exists t,
        LegacySummarizer.or_else
          (strip (join nl (LegacySummarizer.format_category_summary bucket))) fallback
        = String "-" t
  end.
Proof.
  destruct bucket as [|msg bucket]; [reflexivity|].
  rewrite format_category_summary_map. cbn [map].
  assert (Hj : exists r,
             join nl (("- " +:+ strip (LegacySummarizer.sub_prefix msg))
                      :: map (fun msg => "- " +:+ strip (LegacySummarizer.sub_prefix msg))
                           bucket)
             = String "-" r).
  { destruct (map _ bucket); simpl; eauto. }
  destruct Hj as [r ->]. unfold strip. cbn [lstrip].
  replace (isspace "-") with false by reflexivity.
  cbn [rstrip]. destruct (rstrip r); unfold LegacySummarizer.or_else; simpl; eauto.
Qed.

Lemma history_sections (NLP : option (string -> list string)) (commits : list string)
    (repo_info : Dict.dict string) (sections : Dict.dict string) :
  LegacySummarizer.summarize_commit_history NLP commits repo_info = Some sections ->
  let section_of bucket fallback :=
    LegacySummarizer.or_else
      (strip (join nl (LegacySummarizer.format_category_summary
                         (List.filter
                            (fun msg => String.eqb (LegacySummarizer.category_of msg) bucket)
                            commits))))
      fallback in
  exists intro,
    sections =
    [ ("introduction", intro);
      ("features", section_of "features" "No major features listed.");
      ("fixes", section_of "fixes" "No major fixes listed.");
      ("docs", section_of "docs" "No documentation changes listed.") ].
Proof.
  unfold LegacySummarizer.summarize_commit_history. cbv zeta.
  rewrite categorize_commits_group_by, !group_by_get. cbn [Dict.get_default Dict.get app].
  match goal with
  | |- match ?o with Some _ => _ | None => _ end = _ -> _ =>
      destruct o as [intro|]; [| discriminate]
  end.
  intros [= <-]. eexists. reflexivity.
Qed.

(** X17. [summarize_commit_history] raises [KeyError] exactly when the
    description of the repository is missing or empty and no name is given.
    Otherwise it returns the four sections introduction, features, fixes and
    docs, in that order, and each of the last three holds its fallback
    sentence exactly when [categorize_commits] files no message under that
    bucket. *)
Theorem summarize_commit_history_sections (NLP : option (string -> list string))
    (commits : list string) (repo_info : Dict.dict string) :
  (LegacySummarizer.summarize_commit_history NLP commits repo_info = None <->
   truthy_opt (Dict.get repo_info "description") = false /\
   Dict.get repo_info "name" = None) /\
  (forall sections,
     LegacySummarizer.summarize_commit_history NLP commits repo_info = Some sections ->
     Dict.keys sections = ["introduction"; "features"; "fixes"; "docs"] /\
     forall bucket fallback,
       In (bucket, fallback)
         [ ("features", "No major features listed.");
           ("fixes", "No major fixes listed.");
           ("docs", "No documentation changes listed.") ] ->
       (Dict.get sections bucket = Some fallback <->
        List.Forall (fun msg => LegacySummarizer.category_of msg <> bucket) commits)).
Proof.
  split.
  - unfold LegacySummarizer.summarize_commit_history. cbv zeta.
    destruct (truthy_opt (Dict.get repo_info "description")) eqn:Ed.
    + destruct (Dict.get repo_info "description"); [| discriminate Ed].
      split; [discriminate | intros [H _]; discriminate H].
    + destruct (Dict.get repo_info "name"); split;
        [discriminate | intros [_ H]; discriminate H | auto | reflexivity].
  - intros sections Hs. apply history_sections in Hs. cbv zeta in Hs.
    destruct Hs as [intro ->]. split; [reflexivity|].
    intros bucket fallback Hin.
    assert (Hf : forall b,
               List.filter (fun msg => String.eqb (LegacySummarizer.category_of msg) b)
                 commits = [] <->
               List.Forall (fun msg => LegacySummarizer.category_of msg <> b) commits).
    { intros b. rewrite filter_nil_iff. split; apply List.Forall_impl; intros msg H.
      - now apply String.eqb_neq.
      - now apply String.eqb_neq in H. }
    simpl in Hin.
    destruct Hin as [[= <- <-]|[[= <- <-]|[[= <- <-]|[]]]];
      cbn [Dict.get String.eqb Ascii.eqb Bool.eqb]; rewrite <- Hf;
      match goal with
      | |- Some (LegacySummarizer.or_else
                   (strip (join nl (LegacySummarizer.format_category_summary ?B))) ?F)
           = _ <-> _ =>
          pose proof (section_text B F) as Ht; destruct B as [|msg more]
      end;
      try (rewrite Ht; tauto);
      destruct Ht as [t ->]; split; discriminate.
Qed.

Lemma summarize_commit_history_sections_witness :
  exists sections,
    LegacySummarizer.summarize_commit_history None ["fix: crash"]
      [("description", "A tool.")] = Some sections /\
    Dict.get sections "features" = Some "No major features listed.".
Proof.
  eexists. split; [reflexivity|].
  apply (proj2 (summarize_commit_history_sections None ["fix: crash"]
                  [("description", "A tool.")])
           _ eq_refl).
  - left. reflexivity.
  - repeat constructor. discriminate.
Defined.

(** ** [_nlp_summarize] *)

Lemma fromkeys_fold (phrases : list string) (d : Dict.dict unit) :
  NoDup (Dict.keys d) ->
  NoDup (Dict.keys (fold_left (fun d ph => Dict.set d ph tt) phrases d)) /\
  forall x, In x (Dict.keys (fold_left (fun d ph => Dict.set d ph tt) phrases d)) <->
            In x (Dict.keys d) \/ In x phrases.
Proof.
  revert d. induction phrases as [|ph phrases IH]; intros d Hd; simpl.
  - split; [exact Hd | tauto].
  - destruct (IH (Dict.set d ph tt) (keys_set_NoDup d ph tt Hd)) as [Hnd Hin].
    split; [exact Hnd|]. intros x. rewrite Hin, keys_set.
    destruct (mem ph (Dict.keys d)) eqn:E.
    + apply mem_In in E. split; [tauto|]. intros [H|[<-|H]]; tauto.
    + rewrite in_app_iff. simpl. tauto.
Qed.

(** X18. With a spaCy pipeline and at least one message, [_nlp_summarize]
    joins with ", " phrases that are pairwise different, each the trimmed
    text of a noun chunk of more than one word of the joined messages, and
    no more of them than [max_phrases] when that is not negative.  Without
    a pipeline it joins the first messages with "; ". *)
Theorem nlp_summarize_phrases (noun_chunks : string -> list string)
    (messages : list string) (max_phrases : Z) :
  LegacySummarizer._nlp_summarize None messages max_phrases =
    join "; " (slice_to messages max_phrases) /\
  (messages <> [] ->
   exists phrases,
     LegacySummarizer._nlp_summarize (Some noun_chunks) messages max_phrases =
       join ", " phrases /\
     NoDup phrases /\
     ((0 <= max_phrases)%Z -> length phrases <= Z.to_nat max_phrases) /\
     List.Forall
       (fun ph => exists chunk,
          In chunk (noun_chunks (join " " messages)) /\
          1 < length (split chunk) /\ ph = strip chunk)
       phrases).
Proof.
  split.
  - destruct messages as [|m ms]; [| reflexivity].
    simpl. now rewrite slice_to_nil.
  - intros Hne. destruct messages as [|m ms]; [congruence|].
    cbn [LegacySummarizer._nlp_summarize]. cbv zeta.
    set (phrases := map strip (List.filter _ (noun_chunks (join " " (m :: ms))))).
    destruct (fromkeys_fold phrases [] NoDup_nil_2) as [Hnd Hin].
    exists (slice_to (LegacySummarizer.fromkeys phrases) max_phrases).
    split; [reflexivity|]. split; [| split].
    + exact (sublist_NoDup _ _ Hnd (slice_to_sublist _ _)).
    + intros Hmax. unfold slice_to. apply Z.leb_le in Hmax. rewrite Hmax.
      rewrite length_firstn. lia.
    + apply List.Forall_forall. intros ph Hph.
      apply (sublist_In _ _ _ (slice_to_sublist _ _)) in Hph.
      apply Hin in Hph. destruct Hph as [[]|Hph].
      unfold phrases in Hph. apply in_map_iff in Hph.
      destruct Hph as (chunk & <- & Hc). apply filter_In in Hc.
      destruct Hc as [Hc Hw]. apply Nat.ltb_lt in Hw.
      exists chunk. auto.
Qed.

Lemma nlp_summarize_phrases_witness :
  exists phrases,
    LegacySummarizer._nlp_summarize
      (Some (fun _ => ["the cache"; "cache"; " the cache "; "a new parser"]))
      ["add the cache"; "a new parser"] 5 = join ", " phrases /\
    NoDup phrases.
Proof.
  destruct (proj2 (nlp_summarize_phrases
                     (fun _ => ["the cache"; "cache"; " the cache "; "a new parser"])
                     ["add the cache"; "a new parser"] 5))
    as (phrases & H & Hnd & _); [discriminate|].
  exists phrases. split; assumption.
Defined.

(** ** From the narrative summaries to the README *)

Lemma has_summary_narrative (nltk : option Nltk) (L : list CommitInfo) (k : string) :
  has_summary truthy (Narrative.summarize nltk L) k = true <->
  exists c, In c L /\ commit_type c = k /\
            short_description (CommitParser.parse (message c)) <> "".
Proof.
  destruct (narrative_summaries_facts nltk L) as (_ & _ & Hk & Hv).
  rewrite <- Hk. unfold has_summary.
  destruct (Dict.get (Narrative.summarize nltk L) k) as [v|] eqn:E.
  - rewrite truthy_iff. split.
    + intros _. apply get_In in E. unfold Dict.keys. apply in_map_iff.
      now exists (k, v).
    + intros _. exact (Hv k v E).
  - apply get_None_keys in E. split; [discriminate | tauto].
Qed.

(** X19. Fed with the summaries of narrative mode, the introduction and the
    project analysis name the phrase of a type of their tables (feat, fix,
    refactor, docs, test, perf) exactly when some commit of that type has a
    description that is not empty; the other types are never named. *)
Theorem summary_phrases_follow_commits (nltk : option Nltk) (L : list CommitInfo)
    (table : list (string * string)) (phrase : string) :
  In phrase (ReadmeGenerator.phrases_for table (Narrative.summarize nltk L)) <->
  exists k c,
    In (k, phrase) table /\ In c L /\ commit_type c = k /\
    short_description (CommitParser.parse (message c)) <> "".
Proof.
  unfold ReadmeGenerator.phrases_for. rewrite in_flat_map. split.
  - intros ([k ph] & He & Hin). cbn [fst snd] in Hin. unfold when in Hin.
    destruct (has_summary truthy (Narrative.summarize nltk L) k) eqn:E; [| destruct Hin].
    destruct Hin as [<-|[]]. apply has_summary_narrative in E.
    destruct E as (c & Hc). exists k, c. tauto.
  - intros (k & c & He & Hc). exists (k, phrase). split; [exact He|].
    cbn [fst snd]. unfold when.
    replace (has_summary truthy (Narrative.summarize nltk L) k) with true.
    + now left.
    + symmetry. apply has_summary_narrative. now exists c.
Qed.

Lemma summary_phrases_follow_commits_witness :
  In "comprehensive bug fixing"
    (ReadmeGenerator.phrases_for ReadmeGenerator.activity_phrases
       (Narrative.summarize None [commit_of "fix: crash on start"; commit_of "chore: bump"])).
Proof.
  apply (summary_phrases_follow_commits None
           [commit_of "fix: crash on start"; commit_of "chore: bump"]
           ReadmeGenerator.activity_phrases "comprehensive bug fixing").
  exists "fix", (commit_of "fix: crash on start"). split; [| split; [| split]].
  - right. left. reflexivity.
  - left. reflexivity.
  - reflexivity.
  - discriminate.
Defined.
